(** * Bulk Image Cleaner: OAuth relay, session endpoints, reference sweep
    and delete pipeline.

  A shallow embedding of [backend/dist/server.js], the OAuth helper module
  it imports ([webflow.js]) and the Designer extension's [App.tsx].

  Conventions of the embedding.
  - A JavaScript string is a [string]; its characters stand for UTF-16 code
    units below 256, which covers every scope name, identifier and URL
    character the development looks at.
  - [undefined] / [null] are [None]; a value the code only tests for
    truthiness is kept with the test the code applies to it.
  - A promise a host call returns is an [Outcome]: it resolves with a value
    or it rejects.  An optional method ([obj.m?.()]) is an [option]. *)

From Stdlib Require Import List String Ascii Bool Arith Lia ZArith.
From Stdlib Require Import Sorting.Sorted Sorting.Permutation.
From Stdlib Require Import Structures.OrderedTypeEx.
Import ListNotations.
Open Scope string_scope.

(* ===================================================================== *)
(** ** JavaScript string primitives *)
(* ===================================================================== *)

Module JsString.

(** [\s] of a regular expression and the characters [trim] strips:
    WhiteSpace and LineTerminator (TAB, LF, VT, FF, CR, SP, NBSP). *)
Definition is_white_space (c : ascii) : bool :=
  let n := nat_of_ascii c in
  ((9 <=? n)%nat && (n <=? 13)%nat) || (n =? 32)%nat || (n =? 160)%nat.

(** Truthiness of a string: only the empty string is falsy. *)
Definition truthy (s : string) : bool :=
  match s with EmptyString => false | String _ _ => true end.

Fixpoint trimStart (s : string) : string :=
  match s with
  | EmptyString => EmptyString
  | String c rest => if is_white_space c then trimStart rest else s
  end.

(** A character is dropped from the end when it is white space and all
    that follows it has been dropped. *)
Fixpoint trimEnd (s : string) : string :=
  match s with
  | EmptyString => EmptyString
  | String c rest =>
      match trimEnd rest with
      | EmptyString => if is_white_space c then EmptyString else String c EmptyString
      | r => String c r
      end
  end.

Definition trim (s : string) : string := trimEnd (trimStart s).

(** [arr.join(sep)] *)
Definition join (sep : string) (parts : list string) : string :=
  String.concat sep parts.

(** The separator class of [/[\s,]+/]. *)
Definition is_sep (c : ascii) : bool :=
  is_white_space c || Ascii.eqb c ","%char.

(** [s.split(/[\s,]+/)].  The scan keeps the piece read so far in [cur];
    [in_sep] says that the previous character belonged to a separator run
    (the pattern is greedy, so a run is one separator).  A separator at
    the very start or the very end leaves an empty first or last piece,
    and the empty string splits into one empty piece. *)
Fixpoint split_go (in_sep : bool) (cur : string) (s : string) : list string :=
  match s with
  | EmptyString => [cur]
  | String c rest =>
      if is_sep c then
        if in_sep then split_go true EmptyString rest
        else cur :: split_go true EmptyString rest
      else split_go false (cur ++ String c EmptyString) rest
  end.

Definition split_sep (s : string) : list string := split_go false EmptyString s.

(** A piece without any separator of the scope pattern; a [word] is such
    a piece that is not empty. *)
Fixpoint sep_free (s : string) : bool :=
  match s with
  | EmptyString => true
  | String c rest => negb (is_sep c) && sep_free rest
  end.

Definition word (s : string) : Prop := truthy s = true /\ sep_free s = true.

(** [s.startsWith(p)] *)
Definition startsWith (p s : string) : bool := String.prefix p s.

(** [arr.includes(x)] / [set.has(x)] on strings. *)
Definition has (xs : list string) (x : string) : bool :=
  existsb (String.eqb x) xs.

(** [s.toLowerCase()] on the code units this model covers. *)
Definition lower (c : ascii) : ascii :=
  let n := nat_of_ascii c in
  if ((65 <=? n)%nat && (n <=? 90)%nat)
     || ((192 <=? n)%nat && (n <=? 222)%nat && negb (n =? 215)%nat)
  then ascii_of_nat (n + 32) else c.

Fixpoint toLowerCase (s : string) : string :=
  match s with
  | EmptyString => EmptyString
  | String c rest => String (lower c) (toLowerCase rest)
  end.

(** [s.includes(sub)] *)
Fixpoint includes (sub s : string) : bool :=
  String.prefix sub s
  || match s with
     | EmptyString => false
     | String _ rest => includes sub rest
     end.

Fixpoint drop (n : nat) (s : string) : string :=
  match n, s with
  | S k, String _ rest => drop k rest
  | _, _ => s
  end.

(** *** [s.match(/[a-f0-9]{24}/gi)] *)

Definition is_hex (c : ascii) : bool :=
  let n := nat_of_ascii c in
  ((48 <=? n)%nat && (n <=? 57)%nat)
  || ((97 <=? n)%nat && (n <=? 102)%nat)
  || ((65 <=? n)%nat && (n <=? 70)%nat).

(** The next [n] characters when all of them are hexadecimal digits. *)
Fixpoint take_hex (n : nat) (s : string) : option string :=
  match n with
  | O => Some EmptyString
  | S k =>
      match s with
      | String c rest =>
          if is_hex c then option_map (String c) (take_hex k rest) else None
      | EmptyString => None
      end
  end.

(** A global match tries the pattern at each position from the left and
    resumes right after a match; [skip] counts the characters of the last
    match still to be passed over. *)
Fixpoint match_hex_go (skip : nat) (s : string) : list string :=
  match s with
  | EmptyString => []
  | String _ rest =>
      match skip with
      | S k => match_hex_go k rest
      | O =>
          match take_hex 24 s with
          | Some m => m :: match_hex_go 23 rest
          | None => match_hex_go 0 rest
          end
      end
  end.

Definition matchHexIds (s : string) : list string := match_hex_go 0 s.

(** *** The URL pattern of [scanStylePayload]: [http://] or [https://]
    followed by one or more characters that are neither white space nor a
    double quote, a single quote or a closing parenthesis; global flag. *)

Definition is_url_char (c : ascii) : bool :=
  negb (is_white_space c
        || Ascii.eqb c (ascii_of_nat 34)
        || Ascii.eqb c "'"%char
        || Ascii.eqb c ")"%char).

Fixpoint take_url_chars (s : string) : string :=
  match s with
  | EmptyString => EmptyString
  | String c rest =>
      if is_url_char c then String c (take_url_chars rest) else EmptyString
  end.

(** The match that starts at the head of [s], if any: the scheme, then at
    least one character of the class, as many as there are. *)
Definition match_url_at (s : string) : option string :=
  let after (scheme : string) :=
    let tail := take_url_chars (drop (String.length scheme) s) in
    if truthy tail then Some (scheme ++ tail) else None in
  if String.prefix "https://" s then after "https://"
  else if String.prefix "http://" s then after "http://"
  else None.

Fixpoint match_url_go (skip : nat) (s : string) : list string :=
  match s with
  | EmptyString => []
  | String _ rest =>
      match skip with
      | S k => match_url_go k rest
      | O =>
          match match_url_at s with
          | Some m => m :: match_url_go (String.length m - 1) rest
          | None => match_url_go 0 rest
          end
      end
  end.

Definition matchUrls (s : string) : list string := match_url_go 0 s.

End JsString.

(* ===================================================================== *)
(** ** webflow.js: scopes and the upstream API object *)
(* ===================================================================== *)

Module Webflow.
Import JsString.

(** [raw.split(/[\s,]+/).map((s) => s.trim()).filter(Boolean)] *)
Definition scopeList (raw : string) : list string :=
  filter truthy (map trim (split_sep raw)).

Definition normalizeScopes (raw : string) : string :=
  join " " (scopeList raw).

(** [for (const s of prov) if (!reqSet.has(s)) out.push(s)] *)
Definition pushMissing (req : list string) (out : list string) (s : string)
  : list string :=
  if has req s then out else (out ++ [s])%list.

Definition mergeScopes (required : string) (provided : option string) : string :=
  let req := scopeList required in
  let prov := scopeList (match provided with
                         | Some p => p
                         | None => EmptyString
                         end) in
  let out := fold_left (pushMissing req) prov req in
  join " " out.

(** The merged scope list in words: the required scopes in their order,
    then each configured scope that is not a required one, in the order
    configured. *)
Definition mergedList (required : string) (provided : option string)
  : list string :=
  let req := scopeList required in
  (req ++ filter (fun s => negb (has req s))
                 (scopeList (match provided with
                             | Some p => p
                             | None => EmptyString
                             end)))%list.

Definition REQUIRED_SCOPES : string :=
  "sites:read,authorized_user:read,assets:read,assets:write".

(** The value [authorizeUrl] stores under the [scope] search parameter for
    a required scope string and the configured [WEBFLOW_SCOPES]. *)
Definition scopeParam (required : string) (configured : option string) : string :=
  normalizeScopes (mergeScopes required configured).

(** [authorizeUrl(opts)]: the search parameters set on
    [https://webflow.com/oauth/authorize], in the order they are set. *)
Definition authorizeUrl (clientId redirectUri : string)
    (configured : option string) (workspace : option string)
  : list (string * string) :=
  [("client_id", clientId);
   ("redirect_uri", redirectUri);
   ("response_type", "code");
   ("scope", scopeParam REQUIRED_SCOPES configured)]
  ++ match workspace with
     | Some w => if truthy w then [("workspace", w)] else []
     | None => []
     end.

End Webflow.

(* ===================================================================== *)
(** ** server.js: session state, auth helpers and the API handlers *)
(* ===================================================================== *)

Module Server.
Import JsString.

(** One value of [session.authorizedSites]. *)
Record AuthorizedSite := mkAuthorizedSite {
  siteId : string;
  siteName : option string;
  accessToken : option string;
  scopes : option string;
  firstSeenAt : Z;
  lastSeenAt : Z
}.

(** The object [session.authorizedSites]: its own properties in the order
    [Object.keys] lists them. *)
Definition SiteMap := list (string * AuthorizedSite).

(** [req.session] as declared for express-session: every field optional. *)
Record SessionData := mkSession {
  session_accessToken : option string;
  session_scopes : option string;
  postAuthRedirect : option string;
  authorizedSites : option SiteMap
}.

(** What reading [obj[k]] on a plain object yields: an own property, a
    member inherited from [Object.prototype] (truthy, and without an
    [accessToken] of its own), or [undefined]. *)
Inductive PropertyValue :=
| Own (e : AuthorizedSite)
| Inherited
| Undefined.

(** The property names every plain object inherits. *)
Definition objectPrototypeKeys : list string :=
  ["constructor"; "__defineGetter__"; "__defineSetter__"; "hasOwnProperty";
   "__lookupGetter__"; "__lookupSetter__"; "isPrototypeOf";
   "propertyIsEnumerable"; "toString"; "valueOf"; "__proto__";
   "toLocaleString"].

Fixpoint own (m : SiteMap) (k : string) : option AuthorizedSite :=
  match m with
  | [] => None
  | (k', e) :: rest => if String.eqb k k' then Some e else own rest k
  end.

(** [map[k]] *)
Definition get (m : SiteMap) (k : string) : PropertyValue :=
  match own m k with
  | Some e => Own e
  | None => if has objectPrototypeKeys k then Inherited else Undefined
  end.

(** [Object.keys(map)] *)
Definition keys (m : SiteMap) : list string := map fst m.

(** [a || b] on optional strings: the first truthy operand. *)
Definition orElse (a b : option string) : option string :=
  match a with
  | Some t => if truthy t then a else b
  | None => b
  end.

(** [String(v || "")] *)
Definition stringOr (v : option string) : string :=
  match orElse v None with
  | Some t => t
  | None => EmptyString
  end.

(** [String(entry.accessToken || "").trim()], read for its truthiness. *)
Definition tokenAttached (e : AuthorizedSite) : bool :=
  truthy (trim (stringOr (accessToken e))).

Definition hasAnyAuthorization (s : SessionData) : bool :=
  match authorizedSites s with
  | None => false
  | Some sites =>
      let ids := keys sites in
      match ids with
      | [] => false
      | _ =>
          existsb (fun id => match get sites id with
                             | Own entry => tokenAttached entry
                             | _ => false
                             end) ids
      end
  end.

(** A site entry of the session whose token is still non-empty once the
    white space around it is trimmed. *)
Definition carriesToken (s : SessionData) : Prop :=
  exists m k e t,
    authorizedSites s = Some m /\ own m k = Some e
    /\ accessToken e = Some t /\ trim t <> "".

(** [ensureAuthorizedSites(req)]: the session after the call and the map
    it returns. *)
Definition ensureAuthorizedSites (s : SessionData) : SessionData * SiteMap :=
  match authorizedSites s with
  | Some m => (s, m)
  | None =>
      ({| session_accessToken := session_accessToken s;
          session_scopes := session_scopes s;
          postAuthRedirect := postAuthRedirect s;
          authorizedSites := Some [] |}, [])
  end.

(** [getAccessTokenForSite(req, siteId)] *)
Definition getAccessTokenForSite (s : SessionData) (site : string)
  : SessionData * string :=
  let '(s1, m) := ensureAuthorizedSites s in
  let entryToken :=
    match get m (trim site) with
    | Own e => accessToken e
    | _ => None
    end in
  (s1, trim (match orElse entryToken (session_accessToken s1) with
             | Some t => t
             | None => EmptyString
             end)).

(** *** Responses *)

Record SiteSummary := mkSummary {
  id : string;
  displayName : option string;
  shortName : option string
}.

Inductive Body :=
| Message (message : string)
| AuthStatus (authenticated : bool) (authorizedSitesCount : nat)
             (siteIds : list string)
| Sites (sites : list SiteSummary)
| Empty.

Record Response := mkResponse { status : Z; body : Body }.

(** [res.json(b)] answers with status 200. *)
Definition json (b : Body) : Response := {| status := 200; body := b |}.

Definition notAuthenticated : Response :=
  {| status := 401; body := Message "Not authenticated" |}.

(** The [authenticated] member of a status response. *)
Definition authenticatedFlag (r : Response) : option bool :=
  match body r with
  | AuthStatus a _ _ => Some a
  | _ => None
  end.

(** [requireAuth]: [None] stands for [next()]. *)
Definition requireAuth (s : SessionData) : option Response :=
  if hasAnyAuthorization s then None else Some notAuthenticated.

(** [GET /api/auth/status] *)
Definition authStatusHandler (s : SessionData) : SessionData * Response :=
  let '(s1, m) := ensureAuthorizedSites s in
  (s1, json (AuthStatus (hasAnyAuthorization s1)
                        (List.length (keys m))
                        (keys m))).

(** *** Sorting *)

Section Sites.
(** [String.prototype.localeCompare]: negative, zero or positive.  Its
    result depends on the host's locale data, so it is a parameter. *)
Variable localeCompare : string -> string -> Z.

(** [String(a.displayName || a.id)] *)
Definition sortKey (a : SiteSummary) : string :=
  match orElse (displayName a) (Some (id a)) with
  | Some k => k
  | None => EmptyString
  end.

Definition compareSites (a b : SiteSummary) : Z :=
  localeCompare (sortKey a) (sortKey b).

(** Modelled from the language specification: [Array.prototype.sort] is a
    stable sort; an element goes in front of the first one that the
    comparator does not put before it. *)
Fixpoint insertSorted (x : SiteSummary) (l : list SiteSummary)
  : list SiteSummary :=
  match l with
  | [] => [x]
  | y :: rest =>
      if (compareSites x y <=? 0)%Z then x :: y :: rest
      else y :: insertSorted x rest
  end.

Definition sort (l : list SiteSummary) : list SiteSummary :=
  fold_right insertSorted [] l.

Definition summary (m : SiteMap) (k : string) : SiteSummary :=
  let name := match get m k with
              | Own e => siteName e
              | _ => None
              end in
  {| id := k; displayName := name; shortName := name |}.

(** [GET /api/sites], behind [requireAuth]. *)
Definition sitesHandler (s : SessionData) : SessionData * Response :=
  match requireAuth s with
  | Some r => (s, r)
  | None =>
      let '(s1, m) := ensureAuthorizedSites s in
      (s1, json (Sites (sort (map (summary m) (keys m)))))
  end.
End Sites.

(** *** The upstream API object and the delete route *)

(** What an upstream call settles to: it resolves, or it rejects with a
    [WebflowError] carrying the upstream status and message. *)
Inductive Upstream :=
| Resolved
| RejectedWith (upstreamStatus : Z) (message : string).

(** An external request the backend issued: the bearer token and the path
    below [https://api.webflow.com/v2]. *)
Record ApiCall := mkCall { bearer : string; method : string; path : string }.

(** The members a [webflowApi] object may carry.  [assets] is optional:
    reading [webflowApi.assets.delete] on an object without it throws a
    [TypeError]. *)
Record AssetsApi := mkAssets {
  delete : string -> string -> ApiCall * Upstream
}.

Record WebflowApi := mkApi {
  token_authorizedBy : string -> ApiCall;
  token_introspect : string -> ApiCall;
  sites_list : string -> ApiCall;
  assets : option AssetsApi
}.

(** [webflowApi] as webflow.js exports it: [token] and [sites] only. *)
Definition webflowApi : WebflowApi :=
  {| token_authorizedBy := fun t => mkCall t "GET" "/token/authorized_by";
     token_introspect := fun t => mkCall t "GET" "/token/introspect";
     sites_list := fun t => mkCall t "GET" "/sites";
     assets := None |}.

(** What a route handler can throw into the error middleware. *)
Inductive Thrown :=
| TypeError
| WebflowError (upstreamStatus : Z) (message : string).

(** The final error middleware: a [WebflowError] is relayed with its
    status, anything else is a generic 500. *)
Definition errorHandler (e : Thrown) : Response :=
  match e with
  | WebflowError st msg => {| status := st; body := Message msg |}
  | TypeError => {| status := 500; body := Message "Server error" |}
  end.

(** [DELETE /api/sites/:siteId/assets/:assetId], behind [requireAuth]:
    the session afterwards, the response, and the external calls made. *)
Definition deleteAssetHandler (api : WebflowApi) (s : SessionData)
    (siteIdParam assetIdParam : string)
  : SessionData * Response * list ApiCall :=
  match requireAuth s with
  | Some r => (s, r, [])
  | None =>
      let site := trim siteIdParam in
      let asset := trim assetIdParam in
      if negb (truthy site) || negb (truthy asset) then
        (s, {| status := 400; body := Message "Missing siteId or assetId" |}, [])
      else
        let '(s1, m) := ensureAuthorizedSites s in
        match get m site with
        | Undefined =>
            (s1, {| status := 403;
                    body := Message "Site is not authorized for this session" |}, [])
        | _ =>
            let '(s2, token) := getAccessTokenForSite s1 site in
            if negb (truthy token) then (s2, notAuthenticated, [])
            else
              match assets api with
              | None => (s2, errorHandler TypeError, [])
              | Some a =>
                  match delete a token asset with
                  | (call, Resolved) =>
                      (s2, {| status := 204; body := Empty |}, [call])
                  | (call, RejectedWith st msg) =>
                      (s2, errorHandler (WebflowError st msg), [call])
                  end
              end
        end
  end.

End Server.

(** The TypeScript source kept next to the build has an older gate. *)
Module ServerTs.
Import JsString Server.

Definition hasAnyAuthorization (s : SessionData) : bool :=
  let anyToken := match session_accessToken s with
                  | Some t => truthy t
                  | None => false
                  end in
  let hasSites := match authorizedSites s with
                  | Some sites => (0 <? List.length (keys sites))%nat
                  | None => false
                  end in
  anyToken || hasSites.

End ServerTs.

(* ===================================================================== *)
(** ** App.tsx: reference sweep, selection and delete pipeline *)
(* ===================================================================== *)

Module App.
Import JsString.

(** A promise, once awaited. *)
Inductive Outcome (A : Type) : Type :=
| Resolves (a : A)
| Rejects.
Arguments Resolves {A} a.
Arguments Rejects {A}.

(** *** State the component keeps *)

Record ImageRow := mkRow {
  id : string;
  name : string;
  url : string;
  mimeType : string;
  isUnused : bool
}.

Record ScanMeta := mkMeta {
  scannedPages : nat;
  scannedElements : nat;
  scannedStyles : nat;
  detectedReferences : nat;
  durationMs : nat;
  scannedAssets : nat
}.

Record ScanResult := mkResult { images : list ImageRow; meta : ScanMeta }.

Inductive Screen := intro | scanning | results | success.

(** A [Set<string>]: its members in insertion order, each once. *)
Definition StringSet := list string.

Definition add (x : string) (s : StringSet) : StringSet :=
  if has s x then s else (s ++ [x])%list.

(** *** The host objects the Designer hands out *)

(** A style.  [getProperties] resolves with a payload; [None] stands for a
    falsy payload, [Some s] for the text [scanStylePayload] reads: the
    payload itself when it is a string, else [JSON.stringify] of it. *)
Record StyleObj := mkStyle {
  getProperties : option (Outcome (option string))
}.

(** An element.  [getAsset] and [getBackgroundImage] resolve with an
    object whose [id] is kept here ([None]: no object, or a falsy id). *)
Record ElementObj := mkElement {
  el_type : string;
  getAsset : option (Outcome (option string));
  getStyles : option (Outcome (list StyleObj));
  getStyle : option (Outcome (option StyleObj));
  getBackgroundImage : option (Outcome (option string))
}.

(** A page, with what the host answers while it is the current page. *)
Record PageObj := mkPage {
  switchPage : Outcome unit;
  getAllElements : option (Outcome (list ElementObj));
  getOpenGraphImage : option (Outcome string);
  getSearchImage : option (Outcome string)
}.

Inductive Item :=
| Page (p : PageObj)
| Folder.

Record AssetObj := mkAsset {
  asset_id : string;
  getMimeType : option (Outcome string);
  getName : option (Outcome string);
  getUrl : option (Outcome string);
  remove : option (Outcome unit)
}.

(** The ambient [webflow] object. *)
Record Host := mkHost {
  getAllAssets : option (Outcome (list AssetObj));
  getAllPagesAndFolders : option (Outcome (list Item));
  getAllStyles : option (Outcome (list StyleObj));
  getAssetById : option (string -> Outcome (option AssetObj));
  removeAsset : option (AssetObj -> Outcome unit)
}.

(** *** runScan *)

Record ImgInternal := mkImg {
  img_id : string;
  img_name : string;
  img_url : string;
  img_mimeType : string;
  used : bool
}.

(** [(await m?.()) || dflt] inside [try { } catch { keep }]. *)
Definition awaitOr (call : option (Outcome string)) (dflt onReject : string)
  : string :=
  match call with
  | Some (Resolves v) => if truthy v then v else dflt
  | Some Rejects => onReject
  | None => dflt
  end.

(** The loop over [allAssets]: image assets only, in enumeration order. *)
Definition collectImage (asset : AssetObj) : list ImgInternal :=
  let mime := awaitOr (getMimeType asset) EmptyString EmptyString in
  if negb (startsWith "image/" mime) then []
  else
    [{| img_id := asset_id asset;
        img_name := awaitOr (getName asset) "Untitled" "Untitled";
        img_url := awaitOr (getUrl asset) EmptyString EmptyString;
        img_mimeType := mime;
        used := false |}].

Definition collectImages (allAssets : list AssetObj) : list ImgInternal :=
  flat_map collectImage allAssets.

(** [imageById.get(k)]: [Map.set] overwrites, so the last image enumerated
    under an id is the one the map holds. *)
Definition imageById (imgs : list ImgInternal) (k : string)
  : option ImgInternal :=
  find (fun i => String.eqb k (img_id i)) (rev imgs).

(** [urlToId.get(u)]: only images with a non-empty URL are entered. *)
Definition urlToId (imgs : list ImgInternal) (u : string) : option string :=
  option_map img_id
    (find (fun i => truthy (img_url i) && String.eqb u (img_url i)) (rev imgs)).

(** The counters and flags the sweep updates in place. *)
Record ScanState := mkState {
  imgs : list ImgInternal;
  st_detectedReferences : nat;
  st_scannedPages : nat;
  st_scannedElements : nat
}.

(** [entry.used = true] on the object [imageById] holds for [k]. *)
Fixpoint setUsed (k : string) (l : list ImgInternal) : list ImgInternal :=
  match l with
  | [] => []
  | i :: rest =>
      if String.eqb k (img_id i)
         && negb (existsb (fun j => String.eqb k (img_id j)) rest)
      then {| img_id := img_id i; img_name := img_name i;
              img_url := img_url i; img_mimeType := img_mimeType i;
              used := true |} :: rest
      else i :: setUsed k rest
  end.

Definition markUsed (assetId : option string) (st : ScanState) : ScanState :=
  match assetId with
  | None => st
  | Some k =>
      if negb (truthy k) then st
      else
        match imageById (imgs st) k with
        | Some entry =>
            if used entry then st
            else {| imgs := setUsed k (imgs st);
                    st_detectedReferences := S (st_detectedReferences st);
                    st_scannedPages := st_scannedPages st;
                    st_scannedElements := st_scannedElements st |}
        | None => st
        end
  end.

Definition markId (st : ScanState) (k : string) : ScanState :=
  match imageById (imgs st) k with
  | Some _ => markUsed (Some k) st
  | None => st
  end.

Definition markUrl (st : ScanState) (u : string) : ScanState :=
  match urlToId (imgs st) u with
  | Some k => if truthy k then markUsed (Some k) st else st
  | None => st
  end.

Definition scanStylePayload (st : ScanState) (payload : option string)
  : ScanState :=
  match payload with
  | None => st
  | Some s =>
      if negb (truthy s) then st
      else
        let st1 := fold_left markId (matchHexIds s) st in
        fold_left markUrl (matchUrls s) st1
  end.

(** [await st.getProperties?.().catch(() => null)] *)
Definition properties (s : StyleObj) : option string :=
  match getProperties s with
  | Some (Resolves p) => p
  | _ => None
  end.

Definition scanStyles (st : ScanState) (styles : list StyleObj) : ScanState :=
  fold_left scanStylePayload (map properties styles) st.

(** The body of the loop over a page's elements. *)
Definition scanElement (st : ScanState) (el : ElementObj) : ScanState :=
  let st1 :=
    if String.eqb (el_type el) "Image" then
      match getAsset el with
      | Some (Resolves a) => markUsed a st
      | _ => st
      end
    else st in
  let st2 :=
    match getStyles el with
    | Some (Resolves styles) => scanStyles st1 styles
    | _ => st1
    end in
  let st3 :=
    match getStyle el with
    | Some (Resolves (Some style)) => scanStylePayload st2 (properties style)
    | _ => st2
    end in
  match getBackgroundImage el with
  | Some (Resolves bg) => markUsed bg st3
  | _ => st3
  end.

(** [page.getOpenGraphImage?.()] / [page.getSearchImage?.()] *)
Definition scanPageImage (st : ScanState) (call : option (Outcome string))
  : ScanState :=
  match call with
  | Some (Resolves u) => if truthy u then markUrl st u else st
  | _ => st
  end.

(** One turn of the loop over the pages.  [None]: [getAllElements]
    rejected, which nothing inside the loop catches. *)
Definition scanPage (st : ScanState) (page : PageObj) : option ScanState :=
  match switchPage page with
  | Rejects => Some st
  | Resolves _ =>
      let elements :=
        match getAllElements page with
        | None => Some []
        | Some (Resolves els) => Some els
        | Some Rejects => None
        end in
      match elements with
      | None => None
      | Some els =>
          let st0 := {| imgs := imgs st;
                        st_detectedReferences := st_detectedReferences st;
                        st_scannedPages := S (st_scannedPages st);
                        st_scannedElements :=
                          st_scannedElements st + List.length els |} in
          let st1 := fold_left scanElement els st0 in
          let st2 := scanPageImage st1 (getOpenGraphImage page) in
          Some (scanPageImage st2 (getSearchImage page))
      end
  end.

Fixpoint scanPages (st : ScanState) (pages : list PageObj) : option ScanState :=
  match pages with
  | [] => Some st
  | p :: rest =>
      match scanPage st p with
      | Some st' => scanPages st' rest
      | None => None
      end
  end.

(** The loop over the global styles, [BATCH] at a time: the payloads of a
    batch are fetched together and then scanned in order. *)
Definition BATCH : nat := 40.

Fixpoint scanBatches (fuel : nat) (st : ScanState) (styles : list StyleObj)
  : ScanState :=
  match fuel, styles with
  | S f, _ :: _ =>
      let batch := firstn BATCH styles in
      let propsList := map properties batch in
      scanBatches f (fold_left scanStylePayload propsList st)
                  (skipn BATCH styles)
  | _, _ => st
  end.

Definition pagesOf (items : list Item) : list PageObj :=
  flat_map (fun i => match i with Page p => [p] | Folder => [] end) items.

Definition toRow (img : ImgInternal) : ImageRow :=
  {| id := img_id img; name := img_name img; url := img_url img;
     mimeType := img_mimeType img; isUnused := negb (used img) |}.

Definition unusedCount (rows : list ImageRow) : nat :=
  List.length (filter isUnused rows).

(** [runScan]: the error message set when the sweep throws, or the result
    stored and the screen shown.  [elapsed] is the clock difference.  A
    rejected host call carries no message in this model: the fallback text
    stands for it.  The progress bar is not part of the model. *)
Definition runScan (webflow : Host) (elapsed : nat)
  : string + (ScanResult * Screen) :=
  match getAllAssets webflow with
  | None =>
      inl "This Webflow environment does not expose assets API (getAllAssets)."
  | Some Rejects => inl "Scan failed"
  | Some (Resolves allAssets) =>
      let images0 := collectImages allAssets in
      match getAllPagesAndFolders webflow with
      | Some Rejects => inl "Scan failed"
      | items =>
          let pages := pagesOf (match items with
                                | Some (Resolves l) => l
                                | _ => []
                                end) in
          let st0 := {| imgs := images0; st_detectedReferences := 0;
                        st_scannedPages := 0; st_scannedElements := 0 |} in
          match scanPages st0 pages with
          | None => inl "Scan failed"
          | Some st1 =>
              match getAllStyles webflow with
              | Some Rejects => inl "Scan failed"
              | stylesCall =>
                  let styles := match stylesCall with
                                | Some (Resolves l) => l
                                | _ => []
                                end in
                  let st2 := scanBatches (List.length styles) st1 styles in
                  let rows := map toRow (imgs st2) in
                  let result :=
                    {| images := rows;
                       meta := {| scannedPages := st_scannedPages st2;
                                  scannedElements := st_scannedElements st2;
                                  scannedStyles := List.length styles;
                                  detectedReferences := st_detectedReferences st2;
                                  durationMs := elapsed;
                                  scannedAssets := List.length allAssets |} |} in
                  inr (result,
                       if (unusedCount rows =? 0)%nat then success else results)
              end
          end
      end
  end.

(** *** The references a sweep reads

    A second, declarative account of the sweep, to compare [runScan] with:
    for every place the sweep looks at, the asset id found there ([None]
    when the place names nothing, or a URL no image owns). *)

(** The assets kept as images, the pages and the global styles. *)
Definition scannedImages (webflow : Host) : list ImgInternal :=
  collectImages (match getAllAssets webflow with
                 | Some (Resolves l) => l
                 | _ => []
                 end).

Definition pagesListed (webflow : Host) : list PageObj :=
  pagesOf (match getAllPagesAndFolders webflow with
           | Some (Resolves l) => l
           | _ => []
           end).

Definition stylesListed (webflow : Host) : list StyleObj :=
  match getAllStyles webflow with
  | Some (Resolves l) => l
  | _ => []
  end.

(** A style payload: every 24-digit hexadecimal token, then the owner of
    every URL token. *)
Definition payloadRefs (images : list ImgInternal) (payload : option string)
  : list (option string) :=
  match payload with
  | Some s =>
      if truthy s
      then (map Some (matchHexIds s) ++ map (urlToId images) (matchUrls s))%list
      else []
  | None => []
  end.

(** An element: the asset bound to it when it is an Image element, the
    payloads of its styles and of its inline style, its background image. *)
Definition elementRefs (images : list ImgInternal) (el : ElementObj)
  : list (option string) :=
  ((if String.eqb (el_type el) "Image"
    then match getAsset el with Some (Resolves a) => [a] | _ => [] end
    else [])
   ++ match getStyles el with
      | Some (Resolves styles) =>
          flat_map (fun st => payloadRefs images (properties st)) styles
      | _ => []
      end
   ++ match getStyle el with
      | Some (Resolves (Some style)) => payloadRefs images (properties style)
      | _ => []
      end
   ++ match getBackgroundImage el with
      | Some (Resolves bg) => [bg]
      | _ => []
      end)%list.

Definition pageImageRef (images : list ImgInternal)
    (call : option (Outcome string)) : list (option string) :=
  match call with
  | Some (Resolves u) => if truthy u then [urlToId images u] else []
  | _ => []
  end.

Definition elementsOf (page : PageObj) : list ElementObj :=
  match getAllElements page with
  | Some (Resolves els) => els
  | _ => []
  end.

Definition opens (page : PageObj) : bool :=
  match switchPage page with Resolves _ => true | Rejects => false end.

(** A page the sweep could switch to: its elements, then its Open Graph
    and search images.  A page it could not switch to gives nothing. *)
Definition pageRefs (images : list ImgInternal) (page : PageObj)
  : list (option string) :=
  if opens page
  then (flat_map (elementRefs images) (elementsOf page)
        ++ pageImageRef images (getOpenGraphImage page)
        ++ pageImageRef images (getSearchImage page))%list
  else [].

Definition referencesRead (webflow : Host) : list (option string) :=
  let images := scannedImages webflow in
  (flat_map (pageRefs images) (pagesListed webflow)
   ++ flat_map (fun st => payloadRefs images (properties st))
               (stylesListed webflow))%list.

(** *** The sweep read as a sequence of marks *)

(** What the lookup maps are built from; the sweep never changes it. *)
Definition skeleton (l : list ImgInternal) : list (string * string) :=
  map (fun i => (img_id i, img_url i)) l.

(** Marking a list of references, one after the other. *)
Definition markAll (refs : list (option string)) (st : ScanState) : ScanState :=
  fold_left (fun st r => markUsed r st) refs st.

Definition setFlag (i : ImgInternal) : ImgInternal :=
  {| img_id := img_id i; img_name := img_name i; img_url := img_url i;
     img_mimeType := img_mimeType i; used := true |}.

(** Reference [r] names image [i]. *)
Definition hits (r : option string) (i : ImgInternal) : bool :=
  match r with
  | Some k => truthy k && String.eqb k (img_id i)
  | None => false
  end.

Definition flag (refs : list (option string)) (i : ImgInternal) : ImgInternal :=
  if existsb (fun r => hits r i) refs then setFlag i else i.

Definition countUsed (l : list ImgInternal) : nat :=
  List.length (filter used l).

(** A way of reading references that only depends on the skeleton. *)
Definition steady {A : Type} (F : list ImgInternal -> A -> list (option string))
  : Prop :=
  forall l l' a, skeleton l = skeleton l' -> F l a = F l' a.

(** The page and element counters, set aside from the marking. *)
Definition withCounters (pages elements : nat) (st : ScanState) : ScanState :=
  {| imgs := imgs st; st_detectedReferences := st_detectedReferences st;
     st_scannedPages := pages; st_scannedElements := elements |}.

(** The counter counts the images flagged as used. *)
Definition counterExact (st : ScanState) : Prop :=
  st_detectedReferences st = countUsed (imgs st).

Definition initialState (images : list ImgInternal) : ScanState :=
  {| imgs := images; st_detectedReferences := 0;
     st_scannedPages := 0; st_scannedElements := 0 |}.

(** The specification's wording, taken without regard to what the sweep
    could read: asset [k] is bound to an Image element of some page. *)
Definition boundToImageElement (webflow : Host) (k : string) : Prop :=
  exists page el,
    In page (pagesListed webflow) /\ In el (elementsOf page)
    /\ el_type el = "Image" /\ getAsset el = Some (Resolves (Some k)).

(** The specification's wording: the id of asset [k] occurs inside the
    payload of some global style. *)
Definition occursInStylePayload (webflow : Host) (k : string) : Prop :=
  exists st s,
    In st (stylesListed webflow) /\ properties st = Some s
    /\ includes k s = true.

(** *** Selection *)

Definition allUnusedIds (scanResult : option ScanResult) : StringSet :=
  fold_left (fun ids img => if isUnused img then add (id img) ids else ids)
            (match scanResult with Some r => images r | None => [] end) [].

Definition toggleSelectAllUnused (allUnused prev : StringSet) : StringSet :=
  match allUnused with
  | [] => prev
  | _ =>
      let isAll := forallb (fun k => has prev k) allUnused in
      if isAll then [] else allUnused
  end.

(** *** performDelete *)

(** What [api.deleteAsset] settles to: done, or an error with the
    [status] and [message] the handler reads off it. *)
Inductive ApiResult :=
| ApiOk
| ApiError (status : nat) (message : string).

Definition tryRemoveFromDesigner (webflow : Host)
    (assetMaybe : option AssetObj) (assetId : string) : bool :=
  let asset :=
    match assetMaybe with
    | Some a => Some a
    | None =>
        match getAssetById webflow with
        | Some lookup =>
            match lookup assetId with
            | Resolves a => a
            | Rejects => None
            end
        | None => None
        end
    end in
  match asset with
  | None => true
  | Some a =>
      match remove a with
      | Some (Resolves _) => true
      | _ =>
          match removeAsset webflow with
          | Some rm => match rm a with Resolves _ => true | Rejects => false end
          | None => false
          end
      end
  end.

Record DeleteState := mkDelete {
  deleted : StringSet;
  failed : list string;
  authFailed : bool;
  scopeFailed : bool;
  done : nat
}.

Inductive FailureNote := Generic | AuthIssue | PermissionIssue.

Record DeleteRun := mkRun {
  run_state : DeleteState;
  run_result : ScanResult;
  run_screen : Screen;
  run_error : option FailureNote
}.

Section Delete.
Variable webflow : Host.
(** [api.deleteAsset(siteId, id)] *)
Variable deleteAsset : string -> string -> ApiResult.
(** [String(authGate.siteId || "").trim()] *)
Variable siteId : string.

(** [byId.get(k)] over the assets [getAllAssets] listed. *)
Definition byId (list : list AssetObj) (k : string) : option AssetObj :=
  find (fun a => String.eqb k (asset_id a)) (rev list).

(** The backend step of one turn: whether it succeeded, and the failure
    categories seen. *)
Definition backendDelete (k : string) : bool * bool * bool :=
  if truthy siteId then
    match deleteAsset siteId k with
    | ApiOk => (true, false, false)
    | ApiError st message =>
        let msg := toLowerCase message in
        (false, (st =? 401)%nat,
         (st =? 403)%nat || includes "scope" msg || includes "assets:write" msg)
    end
  else (false, false, false).

(** One turn of the loop over the selected ids. *)
Definition deleteOne (list : list AssetObj) (st : DeleteState) (k : string)
  : DeleteState :=
  let assetObj := byId list k in
  let '(ok, auth, scope) := backendDelete k in
  let designerOk := tryRemoveFromDesigner webflow assetObj k in
  let ok := ok || designerOk in
  {| deleted := if ok then add k (deleted st) else deleted st;
     failed := if ok then failed st else (failed st ++ [k])%list;
     authFailed := authFailed st || auth;
     scopeFailed := scopeFailed st || scope;
     done := S (done st) |}.

(** [await webflow.getAllAssets?.().catch(() => [])] *)
Definition listedAssets : list AssetObj :=
  match getAllAssets webflow with
  | Some (Resolves l) => l
  | _ => []
  end.

(** The backend call was made for [k] and succeeded. *)
Definition backendOk (k : string) : Prop :=
truthy siteId = true /\ deleteAsset siteId k = ApiOk.

(** The local removal of [k] reported success. *)
Definition designerOk (k : string) : Prop :=
tryRemoveFromDesigner webflow (byId listedAssets k) k = true.

(** Whether one turn of the loop counts [k] as deleted. *)
Definition countsAsDeleted (k : string) : bool :=
fst (fst (backendDelete k))
|| tryRemoveFromDesigner webflow (byId listedAssets k) k.

Definition deleteAll (ids : list string) : DeleteState :=
  let list := listedAssets in
  fold_left (deleteOne list) ids
            {| deleted := []; failed := []; authFailed := false;
               scopeFailed := false; done := 0 |}.

(** [performDelete]; [None] when it returns before doing anything. *)
Definition performDelete (scanResult : option ScanResult)
    (selectedIds : StringSet) : option DeleteRun :=
  match scanResult with
  | None => None
  | Some prev =>
      match selectedIds with
      | [] => None
      | ids =>
          let st := deleteAll ids in
          let nextImages :=
            filter (fun img => negb (has (deleted st) (id img))) (images prev) in
          let m := meta prev in
          let next :=
            {| images := nextImages;
               meta := {| scannedPages := scannedPages m;
                          scannedElements := scannedElements m;
                          scannedStyles := scannedStyles m;
                          detectedReferences := detectedReferences m;
                          durationMs := durationMs m;
                          scannedAssets :=
                            scannedAssets m - List.length (deleted st) |} |} in
          let remainingUnused :=
            List.length
              (filter (fun img => isUnused img
                                  && negb (has (deleted st) (id img)))
                      (images prev)) in
          Some {| run_state := st;
                  run_result := next;
                  run_screen := if (remainingUnused =? 0)%nat
                                then success else results;
                  run_error :=
                    match failed st with
                    | [] => None
                    | _ => Some (if authFailed st then AuthIssue
                                 else if scopeFailed st then PermissionIssue
                                 else Generic)
                    end |}
      end
  end.
End Delete.

End App.

(* ===================================================================== *)
(** ** Concrete sessions and requests *)
(* ===================================================================== *)

Module Scenario.
Import JsString Server.

Definition site (k : string) (name token : option string) : AuthorizedSite :=
  {| siteId := k; siteName := name; accessToken := token;
     scopes := Some "assets:read assets:write";
     firstSeenAt := 1700000000000; lastSeenAt := 1700000000000 |}.

Definition session (global : option string) (m : option SiteMap) : SessionData :=
  {| session_accessToken := global; session_scopes := None;
     postAuthRedirect := None; authorizedSites := m |}.

(** A session that has never been written to. *)
Definition freshSession : SessionData := session None None.

(** An OAuth token was stored but no site could be resolved. *)
Definition tokenOnlySession : SessionData := session (Some "tok") (Some []).

(** One site whose stored token is a single space. *)
Definition blankTokenSession : SessionData :=
  session None (Some [("site1", site "site1" (Some "Shop") (Some " "))]).

(** One authorized site with a token. *)
Definition oneSiteSession : SessionData :=
  session (Some "tok")
          (Some [("site1", site "site1" (Some "Shop") (Some "tok1"))]).

(** Two sites with the same display name, [b] authorized before [a]. *)
Definition twoShopsSession : SessionData :=
  session (Some "tok")
          (Some [("b", site "b" (Some "Shop") (Some "tok"));
                 ("a", site "a" (Some "Shop") (Some "tok"))]).

(** A comparison by code units: one admissible [localeCompare]. *)
Definition codeUnitCompare (a b : string) : Z :=
  match String.compare a b with
  | Lt => (-1)%Z
  | Eq => 0%Z
  | Gt => 1%Z
  end.

(** An API object that does carry [assets.delete], answering [outcome]. *)
Definition apiWithAssets (outcome : Upstream) : WebflowApi :=
  {| token_authorizedBy := token_authorizedBy webflowApi;
     token_introspect := token_introspect webflowApi;
     sites_list := sites_list webflowApi;
     assets := Some {| delete := fun t a =>
                         (mkCall t "DELETE" ("/assets/" ++ a), outcome) |} |}.

(** A scan result with two unused rows and one used row. *)
Definition threeRows : App.ScanResult :=
  {| App.images :=
       [App.mkRow "a1" "hero.png" "https://cdn.example/hero.png" "image/png" true;
        App.mkRow "a2" "logo.svg" "https://cdn.example/logo.svg" "image/svg+xml" false;
        App.mkRow "a3" "old.jpg" "https://cdn.example/old.jpg" "image/jpeg" true];
     App.meta := App.mkMeta 2 5 1 1 40 3 |}.

(** A host that lists only asset [a1], whose [remove] rejects, and offers
    neither [getAssetById] nor [removeAsset]. *)
Definition stubbornHost : App.Host :=
  {| App.getAllAssets :=
       Some (App.Resolves
               [App.mkAsset "a1" None None None (Some App.Rejects)]);
     App.getAllPagesAndFolders := None;
     App.getAllStyles := None;
     App.getAssetById := None;
     App.removeAsset := None |}.

(** A backend that refuses every delete with 403. *)
Definition refusingBackend (site asset : string) : App.ApiResult :=
  App.ApiError 403 "Site is not authorized for this session".

(** *** Documents for the sweep *)

Definition idA : string := "64a1f0c2b3d4e5f601234567".
Definition idB : string := "64a1f0c2b3d4e5f60123abcd".
Definition idC : string := "64a1f0c2b3d4e5f60123ffff".

Definition imageAsset (k file : string) : App.AssetObj :=
  {| App.asset_id := k;
     App.getMimeType := Some (App.Resolves "image/png");
     App.getName := Some (App.Resolves file);
     App.getUrl := Some (App.Resolves ("https://cdn.example/" ++ k ++ "/" ++ file));
     App.remove := None |}.

Definition imageElement (k : string) : App.ElementObj :=
  {| App.el_type := "Image";
     App.getAsset := Some (App.Resolves (Some k));
     App.getStyles := Some (App.Resolves []);
     App.getStyle := None;
     App.getBackgroundImage := None |}.

Definition page (opensOk : bool) (els : list App.ElementObj) : App.PageObj :=
  {| App.switchPage := if opensOk then App.Resolves tt else App.Rejects;
     App.getAllElements := Some (App.Resolves els);
     App.getOpenGraphImage := Some (App.Resolves "");
     App.getSearchImage := Some (App.Resolves "") |}.

Definition style (payload : string) : App.StyleObj :=
  {| App.getProperties := Some (App.Resolves (Some payload)) |}.

Definition document (pages : list App.PageObj) (styles : list App.StyleObj)
  : App.Host :=
  {| App.getAllAssets :=
       Some (App.Resolves [imageAsset idA "a.png"; imageAsset idB "b.png";
                           imageAsset idC "c.png"]);
     App.getAllPagesAndFolders :=
       Some (App.Resolves (App.Folder :: map App.Page pages));
     App.getAllStyles := Some (App.Resolves styles);
     App.getAssetById := None;
     App.removeAsset := None |}.

(** The specification's example: two pages, asset A in an Image element
    of page 1, asset B's id inside a style payload, asset C nowhere. *)
Definition exampleDocument : App.Host :=
  document [page true [imageElement idA]; page true []]
           [style ("background-image: url(/assets/" ++ idB ++ "_b.png)")].

(** Asset A is bound to an Image element of the only page, and the host
    refuses to switch to that page. *)
Definition closedPageDocument : App.Host :=
  document [page false [imageElement idA]] [].

(** The id of asset B sits in a style payload right after another
    hexadecimal digit. *)
Definition shiftedIdDocument : App.Host :=
  document [page true []] [style ("color:#ff0000" ++ idB)].

(** The host switches to the only page and then rejects the request for
    its elements. *)
Definition brokenElementsDocument : App.Host :=
  document [App.mkPage (App.Resolves tt) (Some App.Rejects) None None] [].

End Scenario.

(* ===================================================================== *)
(** ** App.tsx: the selection, the listing and the progress estimate *)
(* ===================================================================== *)

Module AppUi.
Import JsString App.

(** [set.delete(x)]: the other members keep their order. *)
Definition discard (x : string) (s : StringSet) : StringSet :=
  filter (fun y => negb (String.eqb x y)) s.

(** [toggle(id)]: [next.has(id) ? next.delete(id) : next.add(id)] on a copy
    of the previous selection. *)
Definition toggle (k : string) (prev : StringSet) : StringSet :=
  if has prev k then discard k prev else add k prev.

(** [allUnusedSelected], the label of the select-all button. *)
Definition allUnusedSelected (allUnused selectedIds : StringSet) : bool :=
  match allUnused with
  | [] => false
  | _ => forallb (fun k => has selectedIds k) allUnused
  end.

(** [unusedImages]: the unused rows, narrowed by the search box. *)
Definition unusedImages (scanResult : option ScanResult) (query : string)
  : list ImageRow :=
  let base := filter isUnused (match scanResult with
                               | Some r => images r
                               | None => []
                               end) in
  let q := toLowerCase (trim query) in
  if negb (truthy q) then base
  else filter (fun img => includes q (toLowerCase (name img))
                          || includes q (toLowerCase (id img))) base.

(** What the results screen lets the user do to the selection: tick the
    checkbox of a listed row (under whatever the search box holds), or press
    the select-all button.  A sweep starts from the empty selection. *)
Inductive selectable (r : ScanResult) : StringSet -> Prop :=
| selectable_start : selectable r []
| selectable_row (sel : StringSet) (query : string) (img : ImageRow) :
    selectable r sel ->
    In img (unusedImages (Some r) query) ->
    selectable r (toggle (id img) sel)
| selectable_all (sel : StringSet) :
    selectable r sel ->
    selectable r (toggleSelectAllUnused (allUnusedIds (Some r)) sel).

(** *** The progress estimate *)

(** [updateProgress(v)] as a state update. *)
Definition updateProgress (v prev : Z) : Z := Z.max prev (Z.min 100 v).

(** The interval timer: [p >= 92 ? p : p + 1]. *)
Definition tick (p : Z) : Z := if (92 <=? p)%Z then p else (p + 1)%Z.

Inductive ProgressEvent :=
| Update (v : Z)
| Tick.

Definition progressStep (p : Z) (e : ProgressEvent) : Z :=
  match e with
  | Update v => updateProgress v p
  | Tick => tick p
  end.

(** The value after [runScan] has set it to 0 and the events have run. *)
Definition progressAfter (events : list ProgressEvent) : Z :=
  fold_left progressStep events 0%Z.

(** [ProgressBar]: the width shown, for a whole-number value. *)
Definition barWidth (value : Z) : Z := Z.max 0 (Z.min 100 value).

End AppUi.

(* ===================================================================== *)
(** ** api.ts: what the extension makes of a backend response *)
(* ===================================================================== *)

Module Api.
Import JsString App.

(** The body text of a response, by what [request] can read off it: no
    text, a JSON object with a string [message], or any other text. *)
Inductive ResponseText :=
| NoText
| JsonMessage (message : string)
| OtherText (text : string).

Record HttpResponse := mkHttp {
  http_status : nat;
  statusText : string;
  responseText : ResponseText
}.

(** [res.ok] *)
Definition ok (res : HttpResponse) : bool :=
  (200 <=? http_status res)%nat && (http_status res <=? 299)%nat.

(** The message [request] puts into the [ApiError] it throws. *)
Definition errorMessage (res : HttpResponse) : string :=
  match responseText res with
  | NoText => statusText res
  | JsonMessage m => m
  | OtherText t => if truthy t then t else statusText res
  end.

(** What [request] comes to: the parsed body it returns, or the
    [ApiError] it throws. *)
Inductive Answer :=
| Json (b : Server.Body)
| Throws (status : nat) (message : string).

Section Transport.
(** [getApiBase()]: the backend address of this build, the empty string
    when none is configured or the configured one is refused. *)
Variable base : string.
(** [res.statusText], as the transport reports it for a status. *)
Variable reason : Z -> string.
(** The JSON text of a body that is not a message. *)
Variable stringify : Server.Body -> string.

(** The response the extension sees for what the backend answered: the
    status, and the JSON body [res.json] or the empty body [res.send]
    wrote. *)
Definition overTheWire (r : Server.Response) : HttpResponse :=
  {| http_status := Z.to_nat (Server.status r);
     statusText := reason (Server.status r);
     responseText := match Server.body r with
                     | Server.Message m => JsonMessage m
                     | Server.Empty => NoText
                     | b => OtherText (stringify b)
                     end |}.

(** [request(path, init)], for the response [r] the backend gives to the
    request.  [Server.Empty] stands for the object without members that
    [request] returns on 204 and for a body that is no JSON. *)
Definition request (r : Server.Response) : Answer :=
  if negb (truthy base) then Throws 0 "API_BASE is not configured"
  else
    let res := overTheWire r in
    if negb (ok res) then Throws (http_status res) (errorMessage res)
    else if (http_status res =? 204)%nat then Json Server.Empty
    else Json (Server.body r).

(** [api.authStatus()]: [None] is the [null] of the [catch]. *)
Definition authStatus (s : Server.SessionData) : option Server.Body :=
  match request (snd (Server.authStatusHandler s)) with
  | Json b => Some b
  | Throws _ _ => None
  end.

(** [api.sites()] *)
Definition sites (localeCompare : string -> string -> Z)
    (s : Server.SessionData) : Answer :=
  request (snd (Server.sitesHandler localeCompare s)).

(** [api.deleteAsset(siteId, assetId)] against the backend's delete route
    for the session the cookie names, read the way [performDelete] reads
    it.  Both ids travel as one URL path segment each; the route only
    matches non-empty segments, which is the case for the non-blank ids
    this is used with. *)
Definition deleteAsset (api : Server.WebflowApi) (s : Server.SessionData)
    (siteId assetId : string) : ApiResult :=
  match request (snd (fst (Server.deleteAssetHandler api s (trim siteId)
                                                     (trim assetId)))) with
  | Json _ => ApiOk
  | Throws st m => ApiError st m
  end.
End Transport.

End Api.

(* ===================================================================== *)
(** ** server.js: recording authorized sites and the OAuth callback *)
(* ===================================================================== *)

Module ServerAuth.
Import JsString Server.

(** *** Own properties of a plain object, in [Object.keys] order *)

(** Modelled from the language specification: a property name that is the
    canonical decimal form of a whole number below 2^32 - 1 is an array
    index; [Object.keys] lists array indices first, in ascending order,
    then every other name in the order the properties were created. *)
Definition digitValue (c : ascii) : option N :=
  let n := N_of_ascii c in
  if ((48 <=? n) && (n <=? 57))%N then Some (n - 48)%N else None.

Fixpoint decimal (s : string) (acc : N) : option N :=
  match s with
  | EmptyString => Some acc
  | String c rest =>
      match digitValue c with
      | Some d => decimal rest (10 * acc + d)%N
      | None => None
      end
  end.

Definition arrayIndex (k : string) : option N :=
  match k with
  | EmptyString => None
  | String c rest =>
      if Ascii.eqb c "0" && negb (String.eqb rest EmptyString) then None
      else match decimal k 0 with
           | Some n => if (n <? 4294967295)%N then Some n else None
           | None => None
           end
  end.

Definition hasOwn {A : Type} (m : list (string * A)) (k : string) : bool :=
  existsb (fun p => String.eqb k (fst p)) m.

Fixpoint ownOf {A : Type} (m : list (string * A)) (k : string) : option A :=
  match m with
  | [] => None
  | (k', v) :: rest => if String.eqb k k' then Some v else ownOf rest k
  end.

(** A new array index goes in front of the first name that is a larger
    index or no index at all. *)
Fixpoint place {A : Type} (n : N) (k : string) (v : A)
    (m : list (string * A)) : list (string * A) :=
  match m with
  | [] => [(k, v)]
  | (k', v') :: rest =>
      match arrayIndex k' with
      | Some n' => if (n <? n')%N then (k, v) :: m
                   else (k', v') :: place n k v rest
      | None => (k, v) :: m
      end
  end.

(** An existing property keeps its place. *)
Fixpoint replace {A : Type} (k : string) (v : A)
    (m : list (string * A)) : list (string * A) :=
  match m with
  | [] => []
  | (k', v') :: rest =>
      if String.eqb k k' then (k', v) :: rest
      else (k', v') :: replace k v rest
  end.

(** [obj[k] = v] where the assignment creates or updates an own
    property. *)
Definition define {A : Type} (m : list (string * A)) (k : string) (v : A)
  : list (string * A) :=
  if hasOwn m k then replace k v m
  else match arrayIndex k with
       | Some n => place n k v m
       | None => (m ++ [(k, v)])%list
       end.

(** Assigning to [__proto__] on an object that has no own property of that
    name runs the setter inherited from [Object.prototype] instead of
    creating a property. *)
Definition runsProtoSetter {A : Type} (m : list (string * A)) (k : string)
  : bool :=
  negb (hasOwn m k) && String.eqb k "__proto__".

(** *** upsertAuthorizedSite *)

(** [Partial<AuthorizedSite>], the members the function reads. *)
Record Patch := mkPatch {
  patch_siteName : option string;
  patch_accessToken : option string;
  patch_scopes : option string;
  patch_lastSeenAt : option Z
}.

(** [a ?? b] *)
Definition nullish {A : Type} (a b : option A) : option A :=
  match a with
  | Some _ => a
  | None => b
  end.

Definition withSites (s : SessionData) (m : SiteMap) : SessionData :=
  {| session_accessToken := session_accessToken s;
     session_scopes := session_scopes s;
     postAuthRedirect := postAuthRedirect s;
     authorizedSites := Some m |}.

(** [prev?.field] of [prev = map[id]]: a member inherited from
    [Object.prototype] has none of the fields read. *)
Definition previous (m : SiteMap) (k : string) : option AuthorizedSite :=
  match get m k with
  | Own e => Some e
  | _ => None
  end.

Definition field {A : Type} (prev : option AuthorizedSite)
    (f : AuthorizedSite -> option A) : option A :=
  match prev with
  | Some e => f e
  | None => None
  end.

(** The object literal assigned to [map[id]]. *)
Definition merged (now : Z) (k : string) (prev : option AuthorizedSite)
    (patch : Patch) : AuthorizedSite :=
  {| siteId := k;
     siteName := nullish (patch_siteName patch) (field prev siteName);
     accessToken := nullish (patch_accessToken patch) (field prev accessToken);
     scopes := nullish (patch_scopes patch) (field prev scopes);
     firstSeenAt := match prev with
                    | Some e => firstSeenAt e
                    | None => now
                    end;
     lastSeenAt := match patch_lastSeenAt patch with
                   | Some t => t
                   | None => now
                   end |}.

(** [upsertAuthorizedSite(req, siteId, patch)] with [now] for [Date.now()]:
    the session afterwards.  [None] is the one case the session type has
    no place for: the id is [__proto__] and the map has no own property of
    that name, so the assignment replaces the map's prototype. *)
Definition upsertAuthorizedSite (now : Z) (s : SessionData) (site : string)
    (patch : Patch) : option SessionData :=
  let k := trim site in
  if negb (truthy k) then Some s
  else
    let '(s1, m) := ensureAuthorizedSites s in
    let entry := merged now k (previous m k) patch in
    if runsProtoSetter m k then None
    else Some (withSites s1 (define m k entry)).

(** *** GET /auth/callback *)

(** What the token endpoint answered to [exchangeCodeForToken]: a body
    with [access_token] and [scope], a refusal with its status and the
    [message] of its body, or no answer at all. *)
Inductive Exchange :=
| Granted (access_token scope : option string)
| Refused (upstreamStatus : Z) (message : option string)
| Unreachable.

(** One element of the site list: the members the callback reads. *)
Record SiteJson := mkSiteJson {
  json_id : option string;
  json_displayName : option string;
  json_shortName : option string;
  json_name : option string
}.

(** The object [idToName]. *)
Definition NameMap := list (string * string).

(** [idToName[id] = name]: the inherited [__proto__] setter ignores a
    string. *)
Definition setName (m : NameMap) (k name : string) : NameMap :=
  if runsProtoSetter m k then m else define m k name.

Definition nameStep (m : NameMap) (s : SiteJson) : NameMap :=
  let k := trim (stringOr (json_id s)) in
  if negb (truthy k) then m
  else
    let name := trim (stringOr (orElse (json_displayName s)
                                       (orElse (json_shortName s)
                                               (json_name s)))) in
    if truthy name then setName m k name else m.

Definition siteNames (listed : list SiteJson) : NameMap :=
  fold_left nameStep listed [].

(** [idToName[siteId]]: an own name, [undefined], or ([None]) a member
    inherited from [Object.prototype], which is no string. *)
Definition readName (m : NameMap) (k : string) : option (option string) :=
  match ownOf m k with
  | Some n => Some (Some n)
  | None => if has objectPrototypeKeys k then None else Some None
  end.


(** A listed site the callback takes a name from: its id and its name are
    not blank. *)
Definition named (s : SiteJson) : bool :=
  truthy (trim (stringOr (json_id s)))
  && truthy (trim (stringOr (orElse (json_displayName s)
                                    (orElse (json_shortName s)
                                            (json_name s))))).

(** The loop over [siteIds]; [clock i] is [Date.now()] inside the call
    for the element at position [i]. *)
Fixpoint upsertEach (clock : nat -> Z) (i : nat) (now : Z)
    (token scope : option string) (names : NameMap) (s : SessionData)
    (siteIds : list string) : option SessionData :=
  match siteIds with
  | [] => Some s
  | k :: rest =>
      match readName names k with
      | None => None
      | Some name =>
          match upsertAuthorizedSite (clock i) s k
                  {| patch_siteName := name;
                     patch_accessToken := token;
                     patch_scopes := scope;
                     patch_lastSeenAt := Some now |} with
          | None => None
          | Some s1 => upsertEach clock (S i) now token scope names s1 rest
          end
      end
  end.

(** The site ids the callback records: the introspected ones, or, when
    there are none, the ids of the named sites of the site list. *)
Definition resolvedSiteIds (introspected : option (list string))
    (names : NameMap) : list string :=
  let siteIds := match introspected with
                 | Some l => l
                 | None => []
                 end in
  match siteIds with
  | [] => match map fst names with
          | [] => siteIds
          | fromSites => fromSites
          end
  | _ => siteIds
  end.

(** The upstream answers the callback depends on.  [introspect] is the
    [siteIds] list read off the introspect response, [None] when the call
    rejects or the response has none; [listSites] is the site list,
    [None] when the call rejects or the response has none. *)
Record Upstreams := mkUpstreams {
  exchange : string -> Exchange;
  introspect : option string -> option (list string);
  listSites : option string -> option (list SiteJson)
}.

(** [GET /auth/callback]: the session afterwards and the error response,
    if any; without one the handler redirects to the sanitized
    [postAuthRedirect].  [saved] tells whether [req.session.save]
    succeeds.  [None] as for [upsertAuthorizedSite], and when [idToName]
    is read at a name inherited from [Object.prototype]. *)
Definition callbackHandler (up : Upstreams) (clock : nat -> Z) (now : Z)
    (saved : bool) (s : SessionData) (code error : option string)
  : option (SessionData * option Response) :=
  match orElse error None with
  | Some _ => Some (s, None)
  | None =>
      let c := stringOr code in
      if negb (truthy c) then Some (s, None)
      else
        match exchange up c with
        | Unreachable => Some (s, Some (errorHandler TypeError))
        | Refused st msg =>
            Some (s, Some (errorHandler
                             (WebflowError st
                                (stringOr (orElse msg
                                             (Some "Token exchange failed"))))))
        | Granted token scope =>
            let s1 := {| session_accessToken := token;
                         session_scopes := scope;
                         postAuthRedirect := postAuthRedirect s;
                         authorizedSites := authorizedSites s |} in
            let names := match listSites up token with
                         | Some l => siteNames l
                         | None => []
                         end in
            let siteIds := resolvedSiteIds (introspect up token) names in
            match upsertEach clock 0 now token scope names s1 siteIds with
            | None => None
            | Some s2 =>
                Some (s2, if saved then None
                          else Some {| status := 500;
                                       body := Message "Server error" |})
            end
        end
  end.

End ServerAuth.

(** Example inputs for the callback. *)
Module AuthScenario.
Import JsString Server ServerAuth Scenario.


(** Introspection fails and the one listed site has no name. *)
Definition grantWithoutSites (token : string) : Upstreams :=
  {| exchange := fun _ => Granted (Some token) None;
     introspect := fun _ => None;
     listSites := fun _ => Some [mkSiteJson (Some "site2") None None None] |}.

Definition wallClock (i : nat) : Z := (1800000000000 + Z.of_nat i)%Z.

Definition tokenPatch (token : string) : Patch :=
  {| patch_siteName := None; patch_accessToken := Some token;
     patch_scopes := None; patch_lastSeenAt := None |}.

End AuthScenario.

(* ===================================================================== *)
(** ** App.tsx: the authorization gate of the extension *)
(* ===================================================================== *)

Module AppGate.
Import JsString App.

(** What [webflow.getSiteInfo()] reports, as far as [refreshAuth] reads
    it. *)
Record DesignerSiteInfo := mkInfo {
  info_siteId : option string;
  info_siteName : option string;
  info_shortName : option string;
  info_workspaceId : option string;
  info_workspaceSlug : option string
}.

Inductive GateStatus := loading | api_missing | needs_auth | needs_site | ok.

Record AuthGateState := mkGate {
  gate_status : GateStatus;
  gate_siteId : string;
  gate_siteName : string;
  gate_workspaceId : string;
  gate_workspaceSlug : string;
  gate_authorizedSites : option (list Server.SiteSummary);
  gate_message : option string
}.

(** [(await webflow.getSiteInfo?.()) || null], [null] when it rejects. *)
Definition siteInfo (getSiteInfo : option (Outcome (option DesignerSiteInfo)))
  : option DesignerSiteInfo :=
  match getSiteInfo with
  | Some (Resolves i) => i
  | _ => None
  end.

(** [info?.f] *)
Definition member (info : option DesignerSiteInfo)
    (f : DesignerSiteInfo -> option string) : option string :=
  match info with
  | Some i => f i
  | None => None
  end.

(** [auth.authenticated], read for its truthiness. *)
Definition authenticated (b : Server.Body) : bool :=
  match b with
  | Server.AuthStatus a _ _ => a
  | _ => false
  end.

(** [Array.isArray(sites) ? sites : []] of the destructured answer. *)
Definition sitesOf (b : Server.Body) : list Server.SiteSummary :=
  match b with
  | Server.Sites l => l
  | _ => []
  end.

(** [refreshAuth]: the gate state it sets, from the API base, the site the
    Designer reports, and what [api.authStatus()] and [api.sites()] come
    to. *)
Definition refreshAuth (apiBase : string)
    (getSiteInfo : option (Outcome (option DesignerSiteInfo)))
    (auth : option Server.Body) (sites : Api.Answer) : AuthGateState :=
  let info := siteInfo getSiteInfo in
  let siteId := trim (Server.stringOr (member info info_siteId)) in
  let siteName := trim (Server.stringOr
                          (Server.orElse (member info info_siteName)
                                         (member info info_shortName))) in
  let workspaceId := trim (Server.stringOr (member info info_workspaceId)) in
  let workspaceSlug :=
    trim (Server.stringOr (member info info_workspaceSlug)) in
  let gate st listed msg :=
    mkGate st siteId siteName workspaceId workspaceSlug listed msg in
  if negb (truthy apiBase) then
    gate api_missing None
         (Some "API_BASE is not configured for this extension build.")
  else if negb (match auth with
                | Some b => authenticated b
                | None => false
                end) then
    gate needs_auth None
         (Some "Authorize this app from your Webflow Workspace to continue.")
  else
    match sites with
    | Api.Json b =>
        let authorizedSites := sitesOf b in
        let siteAuthorized :=
          truthy siteId
          && existsb (fun s => String.eqb (Server.id s) siteId)
                     authorizedSites in
        if negb siteAuthorized then
          gate needs_site (Some authorizedSites)
               (Some "This site is not authorized yet. Authorize access to this site and then refresh here.")
        else gate ok (Some authorizedSites) None
    | Api.Throws _ _ =>
        gate needs_auth None
             (Some "Could not verify authorization with the backend. Authorize again and refresh.")
    end.

(** [refreshAuth] against the backend: the status request, then the sites
    request on the session the first one left. *)
Definition refreshAuthAgainst (base : string) (reason : Z -> string)
    (stringify : Server.Body -> string)
    (localeCompare : string -> string -> Z)
    (getSiteInfo : option (Outcome (option DesignerSiteInfo)))
    (s : Server.SessionData) : AuthGateState :=
  refreshAuth base getSiteInfo
    (Api.authStatus base reason stringify s)
    (Api.sites base reason stringify localeCompare
               (fst (Server.authStatusHandler s))).

End AppGate.

(* ===================================================================== *)
(** ** server.js: the origins allowed to call the backend *)
(* ===================================================================== *)

Module Cors.
Import JsString.

(** [s.replace(/\/+$/, "")]: a slash is dropped when all that follows it
    has been dropped. *)
Fixpoint stripSlashes (s : string) : string :=
  match s with
  | EmptyString => EmptyString
  | String c rest =>
      match stripSlashes rest with
      | EmptyString => if Ascii.eqb c "/" then EmptyString
                       else String c EmptyString
      | r => String c r
      end
  end.

Definition normalizeOrigin (v : string) : string :=
  stripSlashes (toLowerCase (trim v)).

(** [Array.from(new Set(xs))] *)
Definition unique (xs : list string) : list string :=
  fold_left (fun acc x => if has acc x then acc else (acc ++ [x])%list) xs [].

(** The environment the origin list is read from; [FRONTEND_URL] is
    required to be set. *)
Record Env := mkEnv {
  FRONTEND_ORIGINS : option string;
  FRONTEND_URL : string
}.

Definition originListStr (env : Env) : string :=
  trim (Server.stringOr (Server.orElse (FRONTEND_ORIGINS env)
                                       (Some (FRONTEND_URL env)))).

Definition allowedOrigins (env : Env) : list string :=
  unique (filter truthy
            (normalizeOrigin (FRONTEND_URL env)
             :: map normalizeOrigin (split_sep (originListStr env)))).

Definition allowedOriginSet (env : Env) : list string :=
  unique (map normalizeOrigin (allowedOrigins env)).

Definition is_digit (c : ascii) : bool :=
  let n := nat_of_ascii c in (48 <=? n)%nat && (n <=? 57)%nat.

(** [(?::\d+)?$]: nothing, or a colon and one or more digits, up to the
    end. *)
Definition portSuffix (s : string) : bool :=
  match s with
  | EmptyString => true
  | String c rest =>
      Ascii.eqb c ":" && truthy rest
      && forallb is_digit (list_ascii_of_string rest)
  end.

(** The rest of [s] after the prefix [p], compared without regard to
    letter case as the [i] flag asks. *)
Fixpoint after (p s : string) : option string :=
  match p, s with
  | EmptyString, _ => Some s
  | String a p', String b s' =>
      if Ascii.eqb a (lower b) then after p' s' else None
  | String _ _, EmptyString => None
  end.

Definition afterEither (p q : string) (s : string) : option string :=
  match after p s with
  | Some r => Some r
  | None => after q s
  end.

(** [/^https?:\/\/(?:localhost|127\.0\.0\.1)(?::\d+)?$/i.test(o)] *)
Definition isLocalOrigin (o : string) : bool :=
  match afterEither "https://" "http://" o with
  | Some r =>
      match afterEither "localhost" "127.0.0.1" r with
      | Some port => portSuffix port
      | None => false
      end
  | None => false
  end.

Definition isAllowedOrigin (env : Env) (origin : string) : bool :=
  let o := normalizeOrigin origin in
  if negb (truthy o) then false
  else if isLocalOrigin o then true
  else has (allowedOriginSet env) o.

(** The first middleware: the status it ends an [OPTIONS] request with
    ([None] for [next()]), and whether it sets the CORS headers. *)
Definition preflight (env : Env) (method : string) (origin : option string)
  : option Z * bool :=
  let o := match origin with Some v => v | None => EmptyString end in
  let allowed := truthy o && isAllowedOrigin env o in
  (if String.eqb method "OPTIONS"
   then Some (if allowed then 204 else 403)%Z
   else None,
   allowed).

End Cors.

(* ===================================================================== *)
(** * Properties *)
(* ===================================================================== *)

(** ** Strings *)

Section StringFacts.
Import JsString.

Lemma append_empty_r (s : string) : s ++ "" = s.
Proof. induction s as [|c s IH]; simpl; [reflexivity | now rewrite IH]. Qed.

Lemma append_assoc (a b c : string) : (a ++ b) ++ c = a ++ (b ++ c).
Proof. induction a as [|x a IH]; simpl; [reflexivity | now rewrite IH]. Qed.


Lemma sep_free_app (a b : string) :
  sep_free (a ++ b) = sep_free a && sep_free b.
Proof.
  induction a as [|c a IH]; simpl; [reflexivity|].
  now rewrite IH, andb_assoc.
Qed.

Lemma white_space_is_sep (c : ascii) : is_sep c = false -> is_white_space c = false.
Proof. unfold is_sep. now intros [H _]%orb_false_iff. Qed.

Lemma trimStart_sep_free (s : string) : sep_free s = true -> trimStart s = s.
Proof.
  destruct s as [|c s]; simpl; [reflexivity|].
  intros [Hc _]%andb_true_iff. apply negb_true_iff, white_space_is_sep in Hc.
  now rewrite Hc.
Qed.

Lemma trimEnd_sep_free (s : string) : sep_free s = true -> trimEnd s = s.
Proof.
  induction s as [|c s IH]; simpl; [reflexivity|].
  intros [Hc Hs]%andb_true_iff. rewrite (IH Hs).
  apply negb_true_iff, white_space_is_sep in Hc.
  destruct s; [now rewrite Hc | reflexivity].
Qed.

Lemma trim_sep_free (s : string) : sep_free s = true -> trim s = s.
Proof.
  intros H. unfold trim. rewrite (trimStart_sep_free _ H).
  now apply trimEnd_sep_free.
Qed.

(** Every piece [split] cuts is free of separators. *)
Lemma split_go_sep_free (s : string) :
  forall b cur, sep_free cur = true ->
                Forall (fun t => sep_free t = true) (split_go b cur s).
Proof.
  induction s as [|c s IH]; intros b cur Hcur; simpl.
  - now constructor.
  - destruct (is_sep c) eqn:Hc.
    + destruct b; [now apply IH | constructor; [assumption | now apply IH]].
    + apply IH. rewrite sep_free_app, Hcur. simpl. now rewrite Hc.
Qed.

(** Reading a separator-free stretch only extends the current piece. *)
Lemma split_go_stretch (t : string) :
  forall cur rest, sep_free t = true ->
    split_go false cur (t ++ rest) = split_go false (cur ++ t) rest.
Proof.
  induction t as [|c t IH]; intros cur rest Ht; simpl.
  - now rewrite append_empty_r.
  - simpl in Ht. apply andb_true_iff in Ht as [Hc Ht].
    apply negb_true_iff in Hc. rewrite Hc, (IH _ _ Ht), append_assoc.
    reflexivity.
Qed.

Lemma split_go_word (t : string) (b : bool) (cur rest : string) :
  word t -> split_go b cur (t ++ rest) = split_go false (cur ++ t) rest.
Proof.
  intros [Hne Ht]. destruct t as [|c t]; [discriminate|].
  simpl in Ht. apply andb_true_iff in Ht as [Hc Ht].
  apply negb_true_iff in Hc. simpl. rewrite Hc, (split_go_stretch _ _ _ Ht).
  now rewrite append_assoc.
Qed.

(** Splitting what [join " "] built from words gives the words back. *)
Lemma split_go_join (ts : list string) :
  Forall word ts -> ts <> [] ->
  forall b, split_go b "" (join " " ts) = ts.
Proof.
  induction ts as [|t ts IH]; intros Hall Hne b; [congruence|].
  inversion Hall as [|? ? Ht Hts]; subst.
  destruct ts as [|t2 ts].
  - simpl. rewrite <- (append_empty_r t) at 1.
    now rewrite (split_go_word _ _ _ _ Ht).
  - change (join " " (t :: t2 :: ts)) with (t ++ " " ++ join " " (t2 :: ts)).
    rewrite (split_go_word _ _ _ _ Ht). simpl.
    f_equal. apply IH; [assumption | discriminate].
Qed.

End StringFacts.

(** ** Scope merging *)

Section ScopeFacts.
Import JsString Webflow.

Lemma scopeList_words (raw : string) : Forall word (scopeList raw).
Proof.
  unfold scopeList, split_sep.
  pose proof (split_go_sep_free raw false "" eq_refl) as H.
  induction H as [|t ts Ht _ IH]; simpl; [constructor|].
  rewrite (trim_sep_free _ Ht).
  destruct (truthy t) eqn:E; [constructor; [now split | exact IH] | exact IH].
Qed.

Lemma scopeList_join (ts : list string) :
  Forall word ts -> scopeList (join " " ts) = ts.
Proof.
  intros Hall. unfold scopeList, split_sep.
  destruct ts as [|t ts]; [reflexivity|].
  rewrite (split_go_join _ Hall); [|discriminate].
  induction Hall as [|u us [Hu1 Hu2] _ IH]; simpl; [reflexivity|].
  now rewrite (trim_sep_free _ Hu2), Hu1, IH.
Qed.

(** Re-normalising a string that is already a space-joined word list
    changes nothing. *)
Lemma normalizeScopes_join (ts : list string) :
  Forall word ts -> normalizeScopes (join " " ts) = join " " ts.
Proof. intros H. unfold normalizeScopes. now rewrite scopeList_join. Qed.

Lemma pushMissing_fold (req prov out : list string) :
  fold_left (pushMissing req) prov out
  = (out ++ filter (fun s => negb (has req s)) prov)%list.
Proof.
  revert out. induction prov as [|s prov IH]; intros out; simpl.
  - now rewrite app_nil_r.
  - rewrite IH. unfold pushMissing. destruct (has req s); simpl.
    + reflexivity.
    + now rewrite <- app_assoc.
Qed.

Lemma has_In (xs : list string) (x : string) : has xs x = true <-> In x xs.
Proof.
  unfold has. rewrite existsb_exists. split.
  - intros [y [Hy E]]. apply String.eqb_eq in E. now subst.
  - intros H. exists x. split; [assumption | apply String.eqb_refl].
Qed.

Lemma mergeScopes_eq (required : string) (provided : option string) :
  mergeScopes required provided = join " " (mergedList required provided).
Proof. unfold mergeScopes, mergedList. now rewrite pushMissing_fold. Qed.

Lemma mergedList_words (required : string) (provided : option string) :
  Forall word (mergedList required provided).
Proof.
  unfold mergedList. apply Forall_app. split; [apply scopeList_words|].
  apply Forall_forall. intros x [Hx _]%filter_In.
  revert x Hx. apply Forall_forall, scopeList_words.
Qed.

Lemma scopeParam_eq (required : string) (provided : option string) :
  scopeParam required provided = join " " (mergedList required provided).
Proof.
  unfold scopeParam. rewrite mergeScopes_eq.
  apply normalizeScopes_join, mergedList_words.
Qed.

Lemma mergedList_NoDup (required : string) (provided : option string) :
  NoDup (scopeList required) ->
  NoDup (scopeList (match provided with Some p => p | None => "" end)) ->
  NoDup (mergedList required provided).
Proof.
  intros Hr Hp. unfold mergedList. apply NoDup_app.
  - assumption.
  - now apply NoDup_filter.
  - intros x Hx [_ Hf]%filter_In. apply has_In in Hx.
    now rewrite Hx in Hf.
Qed.

Lemma scopeList_scopeParam (required : string) (provided : option string) :
  scopeList (scopeParam required provided) = mergedList required provided.
Proof.
  rewrite scopeParam_eq. apply scopeList_join, mergedList_words.
Qed.

(** C6 (as amended): the scope string handed to the authorize URL is the
    required scopes in their original order followed by each configured
    scope that is not a required one, joined by single spaces; normalising
    the merged string changes nothing; the result repeats no scope when
    neither the required nor the configured list repeats one; and required
    [a,b] with configured [b,c] gives [a b c]. *)
Theorem scopeParam_required_then_extras (required : string)
    (provided : option string) :
  mergeScopes required provided = join " " (mergedList required provided)
  /\ scopeParam required provided = mergeScopes required provided
  /\ scopeList (scopeParam required provided) = mergedList required provided
  /\ (NoDup (scopeList required) ->
      NoDup (scopeList (match provided with Some p => p | None => "" end)) ->
      NoDup (scopeList (scopeParam required provided)))
  /\ scopeParam "a,b" (Some "b,c") = "a b c".
Proof.
  repeat split.
  - apply mergeScopes_eq.
  - now rewrite scopeParam_eq, mergeScopes_eq.
  - apply scopeList_scopeParam.
  - intros Hr Hp. rewrite scopeList_scopeParam. now apply mergedList_NoDup.
Qed.

(** C6 (as stated) fails: a scope configured twice is appended twice, so
    the merged string is not deduplicated. *)
Lemma scopeParam_repeats_configured_scope :
  scopeParam "a,b" (Some "c,c") = "a b c c"
  /\ ~ NoDup (scopeList (scopeParam "a,b" (Some "c,c"))).
Proof.
  split; [reflexivity|].
  change (scopeList (scopeParam "a,b" (Some "c,c"))) with ["a"; "b"; "c"; "c"].
  intros H. inversion H as [|? ? _ H1]; subst.
  inversion H1 as [|? ? _ H2]; subst.
  inversion H2 as [|? ? H3 _]; subst.
  apply H3. now left.
Qed.

End ScopeFacts.

(** ** The authorization gate and the status endpoint *)

Section GateFacts.
Import JsString Server Scenario.

Lemma truthy_true (s : string) : truthy s = true <-> s <> "".
Proof. destruct s; simpl; split; congruence. Qed.

Lemma tokenAttached_spec (e : AuthorizedSite) :
  tokenAttached e = true <-> exists t, accessToken e = Some t /\ trim t <> "".
Proof.
  unfold tokenAttached, stringOr, orElse. rewrite truthy_true.
  destruct (accessToken e) as [t|].
  - destruct t as [|c t]; simpl.
    + change (trim "") with "".
      split; [congruence | now intros [t [[= <-] H]]].
    + split; [intros H; now exists (String c t) | now intros [t' [[= <-] H]]].
  - change (trim "") with "".
    split; [congruence | now intros [t [? _]]].
Qed.

Lemma own_In (m : SiteMap) (k : string) (e : AuthorizedSite) :
  own m k = Some e -> In k (keys m).
Proof.
  induction m as [|[k' e'] m IH]; simpl; [discriminate|].
  destruct (String.eqb_spec k k'); [now left | right; now apply IH].
Qed.

Lemma hasAnyAuthorization_spec (s : SessionData) :
  hasAnyAuthorization s = true <-> carriesToken s.
Proof.
  unfold hasAnyAuthorization, carriesToken.
  destruct (authorizedSites s) as [m|].
  - assert (Hex :
      existsb (fun k => match get m k with
                        | Own entry => tokenAttached entry
                        | _ => false
                        end) (keys m) = true
      <-> exists k e, own m k = Some e /\ tokenAttached e = true).
    { rewrite existsb_exists. unfold get. split.
      - intros [k [Hk H]]. destruct (own m k) as [e|] eqn:E.
        + now exists k, e.
        + now destruct (has objectPrototypeKeys k).
      - intros [k [e [E H]]]. exists k. split; [eapply own_In; eauto|].
        now rewrite E. }
    destruct (keys m) eqn:Ek.
    + split; [discriminate|].
      intros [m' [k [e [t [[= <-] [E _]]]]]].
      apply own_In in E. rewrite Ek in E. destruct E.
    + rewrite Hex. split.
      * intros [k [e [E H]]]. apply tokenAttached_spec in H as [t [Ht Hn]].
        now exists m, k, e, t.
      * intros [m' [k [e [t [[= <-] [E [Ht Hn]]]]]]]. exists k, e.
        split; [assumption | apply tokenAttached_spec; now exists t].
  - split; [discriminate | now intros [m [k [e [t [? _]]]]]].
Qed.

Lemma ensure_keeps_gate (s : SessionData) :
  hasAnyAuthorization (fst (ensureAuthorizedSites s)) = hasAnyAuthorization s.
Proof.
  unfold ensureAuthorizedSites.
  destruct (authorizedSites s) eqn:E; [reflexivity|].
  unfold hasAnyAuthorization. now rewrite E.
Qed.

(** C1 (as amended): the status endpoint answers [authenticated: true]
    exactly when some entry of the session's site map carries a token that
    is non-empty after trimming white space; in particular a session
    without a site map, with an empty one, or with a global token only
    answers [authenticated: false]. *)
Theorem authStatus_authenticated_iff (s : SessionData) :
  exists b,
    authenticatedFlag (snd (authStatusHandler s)) = Some b
    /\ (b = true <-> carriesToken s)
    /\ ((authorizedSites s = None \/ authorizedSites s = Some []) -> b = false).
Proof.
  exists (hasAnyAuthorization s). repeat split.
  - unfold authStatusHandler.
    pose proof (ensure_keeps_gate s) as H.
    destruct (ensureAuthorizedSites s) as [s1 m]. simpl in *. now rewrite H.
  - apply hasAnyAuthorization_spec.
  - apply hasAnyAuthorization_spec.
  - unfold hasAnyAuthorization. now intros [-> | ->].
Qed.

(** C1 (as stated) fails: a stored token made of white space only is a
    non-empty string, and the endpoint still answers
    [authenticated: false]. *)
Lemma authStatus_blank_token_not_authenticated :
  authenticatedFlag (snd (authStatusHandler blankTokenSession)) = Some false
  /\ exists m k e t,
       authorizedSites blankTokenSession = Some m /\ own m k = Some e
       /\ accessToken e = Some t /\ t <> "".
Proof.
  split; [reflexivity|].
  exists [("site1", site "site1" (Some "Shop") (Some " "))], "site1",
         (site "site1" (Some "Shop") (Some " ")), " ".
  repeat split; discriminate.
Qed.

(** C9 (as amended): the status endpoint answers with the gate's verdict,
    the number of keys of the site map and the keys themselves; a session
    that already has a site map is left unchanged, and a session without
    one gets an empty map and no other change. *)
Theorem authStatus_response_and_frame (s : SessionData) :
  let m := match authorizedSites s with Some m => m | None => [] end in
  snd (authStatusHandler s)
  = json (AuthStatus (hasAnyAuthorization s) (List.length (keys m)) (keys m))
  /\ (authorizedSites s <> None -> fst (authStatusHandler s) = s)
  /\ (authorizedSites s = None ->
      fst (authStatusHandler s)
      = {| session_accessToken := session_accessToken s;
           session_scopes := session_scopes s;
           postAuthRedirect := postAuthRedirect s;
           authorizedSites := Some [] |}).
Proof.
  unfold authStatusHandler, ensureAuthorizedSites, hasAnyAuthorization.
  destruct (authorizedSites s) as [m|] eqn:E; cbn; rewrite ?E.
  - split; [reflexivity | split; [reflexivity | discriminate]].
  - split; [reflexivity | split; [congruence | reflexivity]].
Qed.

(** C9 (as stated) fails: on a session that has no site map yet the
    handler stores an empty one. *)
Lemma authStatus_writes_fresh_session :
  fst (authStatusHandler freshSession) <> freshSession
  /\ authorizedSites (fst (authStatusHandler freshSession)) = Some [].
Proof. split; [discriminate | reflexivity]. Qed.

(** The gate of the TypeScript source accepts a bare global token. *)
Lemma ts_gate_accepts_token_only :
  ServerTs.hasAnyAuthorization tokenOnlySession = true
  /\ hasAnyAuthorization tokenOnlySession = false.
Proof. split; reflexivity. Qed.

End GateFacts.

(** ** The asset delete route *)

Section DeleteRouteFacts.
Import JsString Server Scenario.

Lemma requireAuth_next (s : SessionData) :
  hasAnyAuthorization s = true -> requireAuth s = None.
Proof. unfold requireAuth. now intros ->. Qed.

Lemma ensure_with_map (s : SessionData) (m : SiteMap) :
  authorizedSites s = Some m -> ensureAuthorizedSites s = (s, m).
Proof. unfold ensureAuthorizedSites. now intros ->. Qed.

(** C2 (as amended): once the session passes the gate and both path
    parameters are non-blank, a site id that is neither a key of the site
    map nor a property name every object inherits is answered with 403,
    whatever the session's global token is, and no external call is made. *)
Theorem delete_unknown_site_forbidden (api : WebflowApi) (s : SessionData)
    (m : SiteMap) (siteIdParam assetIdParam : string) :
  hasAnyAuthorization s = true ->
  authorizedSites s = Some m ->
  trim siteIdParam <> "" ->
  trim assetIdParam <> "" ->
  own m (trim siteIdParam) = None ->
  has objectPrototypeKeys (trim siteIdParam) = false ->
  forall global : option string,
    let s' := {| session_accessToken := global;
                 session_scopes := session_scopes s;
                 postAuthRedirect := postAuthRedirect s;
                 authorizedSites := authorizedSites s |} in
    deleteAssetHandler api s' siteIdParam assetIdParam
    = (s', {| status := 403;
              body := Message "Site is not authorized for this session" |}, []).
Proof.
  intros Hgate Hm Hsite Hasset Hown Hproto global s'.
  assert (Hgate' : hasAnyAuthorization s' = true).
  { unfold hasAnyAuthorization in *. subst s'. simpl. exact Hgate. }
  assert (Hm' : authorizedSites s' = Some m) by (subst s'; simpl; exact Hm).
  unfold deleteAssetHandler.
  rewrite (requireAuth_next _ Hgate').
  apply truthy_true in Hsite. apply truthy_true in Hasset.
  rewrite Hsite, Hasset. simpl.
  rewrite (ensure_with_map _ _ Hm').
  unfold get. now rewrite Hown, Hproto.
Qed.

Lemma delete_unknown_site_forbidden_witness :
  deleteAssetHandler webflowApi oneSiteSession "site2" "asset1"
  = (oneSiteSession,
     {| status := 403;
        body := Message "Site is not authorized for this session" |}, []).
Proof.
  apply (delete_unknown_site_forbidden webflowApi oneSiteSession
           [("site1", site "site1" (Some "Shop") (Some "tok1"))]
           "site2" "asset1");
    solve [reflexivity | discriminate].
Defined.

(** C2 (as stated) fails: with a global token and no authorized site the
    gate in front of the route answers 401, not 403. *)
Lemma delete_token_only_session_unauthenticated :
  status (snd (fst (deleteAssetHandler webflowApi tokenOnlySession
                                       "site1" "asset1"))) = 401%Z
  /\ session_accessToken tokenOnlySession = Some "tok"
  /\ (forall m, authorizedSites tokenOnlySession = Some m ->
                ~ In "site1" (keys m)).
Proof.
  split; [reflexivity|]. split; [reflexivity|].
  intros m [= <-]. simpl. tauto.
Qed.

(** The token the route resolves for a site whose entry carries one. *)
Lemma token_of_listed_site (s : SessionData) (m : SiteMap) (k : string)
    (e : AuthorizedSite) :
  authorizedSites s = Some m -> own m (trim k) = Some e ->
  tokenAttached e = true ->
  getAccessTokenForSite s k = (s, trim (stringOr (accessToken e))).
Proof.
  intros Hm He Htok. unfold getAccessTokenForSite.
  rewrite (ensure_with_map _ _ Hm). unfold get. rewrite He.
  unfold tokenAttached, stringOr in *. unfold orElse in *.
  destruct (accessToken e) as [t|]; [|discriminate].
  destruct (truthy t) eqn:Et; [reflexivity | discriminate].
Qed.

Lemma trimStart_head (k : string) :
  trimStart k = "" \/ exists c r, trimStart k = String c r /\ is_white_space c = false.
Proof.
  induction k as [|c k IH]; simpl; [now left|].
  destruct (is_white_space c) eqn:E; [exact IH | right; now exists c, k].
Qed.

Lemma trimEnd_idempotent (u : string) : trimEnd (trimEnd u) = trimEnd u.
Proof.
  induction u as [|c u IH]; simpl; [reflexivity|].
  destruct (trimEnd u) as [|c' u'] eqn:E.
  - destruct (is_white_space c) eqn:Ec; simpl; [reflexivity | now rewrite Ec].
  - change (trimEnd (String c (String c' u')))
      with (match trimEnd (String c' u') with
            | "" => if is_white_space c then "" else String c ""
            | r => String c r
            end).
    now rewrite IH.
Qed.

Lemma trim_idempotent (k : string) : trim (trim k) = trim k.
Proof.
  unfold trim. destruct (trimStart_head k) as [E | [c [r [E Hc]]]]; rewrite E.
  - reflexivity.
  - assert (H : exists r', trimEnd (String c r) = String c r').
    { simpl. destruct (trimEnd r); [rewrite Hc|]; eauto. }
    destruct H as [r' H].
    assert (Hs : trimStart (trimEnd (String c r)) = trimEnd (String c r)).
    { rewrite H. simpl. now rewrite Hc. }
    rewrite Hs. apply trimEnd_idempotent.
Qed.

(** What the route does once the gate, the parameter check and the site
    check have passed: everything hinges on [webflowApi.assets]. *)
Lemma delete_listed_site (api : WebflowApi) (s : SessionData) (m : SiteMap)
    (e : AuthorizedSite) (siteIdParam assetIdParam : string) :
  authorizedSites s = Some m ->
  own m (trim siteIdParam) = Some e ->
  tokenAttached e = true ->
  trim siteIdParam <> "" ->
  trim assetIdParam <> "" ->
  deleteAssetHandler api s siteIdParam assetIdParam
  = match assets api with
    | None => (s, errorHandler TypeError, [])
    | Some a =>
        match delete a (trim (stringOr (accessToken e))) (trim assetIdParam) with
        | (call, Resolved) => (s, {| status := 204; body := Empty |}, [call])
        | (call, RejectedWith st msg) =>
            (s, errorHandler (WebflowError st msg), [call])
        end
    end.
Proof.
  intros Hm He Htok Hsite Hasset.
  assert (Hgate : hasAnyAuthorization s = true).
  { apply hasAnyAuthorization_spec.
    apply tokenAttached_spec in Htok as [t [Ht Hn]].
    now exists m, (trim siteIdParam), e, t. }
  unfold deleteAssetHandler. rewrite (requireAuth_next _ Hgate).
  apply truthy_true in Hsite. apply truthy_true in Hasset.
  rewrite Hsite, Hasset. simpl.
  rewrite (ensure_with_map _ _ Hm). unfold get at 1. rewrite He.
  rewrite (token_of_listed_site s m (trim siteIdParam) e Hm);
    [| now rewrite trim_idempotent | assumption].
  unfold tokenAttached in Htok. now rewrite Htok.
Qed.

(** C3, on the code as it stands: [webflowApi] has no [assets] member, so
    for a listed site with a token the route makes no external call and
    answers through the error middleware with a generic 500. *)
Theorem delete_listed_site_server_error (s : SessionData) (m : SiteMap)
    (e : AuthorizedSite) (siteIdParam assetIdParam : string) :
  authorizedSites s = Some m ->
  own m (trim siteIdParam) = Some e ->
  tokenAttached e = true ->
  trim siteIdParam <> "" ->
  trim assetIdParam <> "" ->
  deleteAssetHandler webflowApi s siteIdParam assetIdParam
  = (s, {| status := 500; body := Message "Server error" |}, []).
Proof.
  intros Hm He Htok Hsite Hasset.
  now rewrite (delete_listed_site webflowApi s m e _ _ Hm He Htok Hsite Hasset).
Qed.

Lemma delete_listed_site_server_error_witness :
  deleteAssetHandler webflowApi oneSiteSession "site1" "asset1"
  = (oneSiteSession, {| status := 500; body := Message "Server error" |}, []).
Proof.
  apply (delete_listed_site_server_error oneSiteSession
           [("site1", site "site1" (Some "Shop") (Some "tok1"))]
           (site "site1" (Some "Shop") (Some "tok1")) "site1" "asset1");
    solve [reflexivity | discriminate].
Defined.

(** With an API object that does carry [assets.delete], the same request
    is relayed with the site's own token and answered 204 without a body
    when the upstream call resolves. *)
Lemma delete_listed_site_with_assets (s : SessionData) (m : SiteMap)
    (e : AuthorizedSite) (siteIdParam assetIdParam : string) :
  authorizedSites s = Some m ->
  own m (trim siteIdParam) = Some e ->
  tokenAttached e = true ->
  trim siteIdParam <> "" ->
  trim assetIdParam <> "" ->
  deleteAssetHandler (apiWithAssets Resolved) s siteIdParam assetIdParam
  = (s, {| status := 204; body := Empty |},
     [mkCall (trim (stringOr (accessToken e))) "DELETE"
             ("/assets/" ++ trim assetIdParam)]).
Proof.
  intros Hm He Htok Hsite Hasset.
  now rewrite (delete_listed_site _ s m e _ _ Hm He Htok Hsite Hasset).
Qed.

(** A site id that is the name of an inherited member passes the site
    check although the map has no such key; the token then falls back to the
    session's global one. *)
Lemma delete_inherited_name_skips_site_check (s : SessionData) (m : SiteMap)
    (g assetIdParam : string) :
  hasAnyAuthorization s = true ->
  authorizedSites s = Some m ->
  own m "constructor" = None ->
  session_accessToken s = Some g ->
  trim g <> "" ->
  trim assetIdParam <> "" ->
  deleteAssetHandler (apiWithAssets Resolved) s "constructor" assetIdParam
  = (s, {| status := 204; body := Empty |},
     [mkCall (trim g) "DELETE" ("/assets/" ++ trim assetIdParam)])
  /\ deleteAssetHandler webflowApi s "constructor" assetIdParam
     = (s, {| status := 500; body := Message "Server error" |}, []).
Proof.
  intros Hgate Hm Hown Hg Hgne Hasset.
  unfold deleteAssetHandler. rewrite (requireAuth_next _ Hgate).
  apply truthy_true in Hasset. rewrite Hasset.
  change (trim "constructor") with "constructor".
  cbn [truthy negb orb]. rewrite (ensure_with_map _ _ Hm).
  assert (Hget : get m "constructor" = Inherited).
  { unfold get. now rewrite Hown. }
  assert (Htok : getAccessTokenForSite s "constructor" = (s, trim g)).
  { unfold getAccessTokenForSite. rewrite (ensure_with_map _ _ Hm).
    change (trim "constructor") with "constructor". rewrite Hget.
    cbn [orElse]. now rewrite Hg. }
  rewrite Hget, Htok. apply truthy_true in Hgne. rewrite Hgne.
  split; reflexivity.
Qed.

Lemma delete_inherited_name_skips_site_check_witness :
  fst (deleteAssetHandler (apiWithAssets Resolved) oneSiteSession
                          "constructor" "asset1")
  = (oneSiteSession, {| status := 204; body := Empty |}).
Proof.
  assert (H := delete_inherited_name_skips_site_check oneSiteSession
                 [("site1", site "site1" (Some "Shop") (Some "tok1"))]
                 "tok" "asset1" eq_refl eq_refl eq_refl eq_refl
                 ltac:(discriminate) ltac:(discriminate)).
  destruct H as [H _]. now rewrite H.
Defined.

End DeleteRouteFacts.

(** ** The site list *)

Section SitesFacts.
Import JsString Server Scenario.
Open Scope Z_scope.

Variable localeCompare : string -> string -> Z.

(** A consistent comparator: swapping the operands flips the sign, and
    "not after" is transitive. *)
Hypothesis compare_flip :
  forall a b, localeCompare a b > 0 <-> localeCompare b a < 0.
Hypothesis compare_trans :
  forall a b c, localeCompare a b <= 0 -> localeCompare b c <= 0 ->
                localeCompare a c <= 0.

Abbreviation cmp := (compareSites localeCompare).
Abbreviation notAfter := (fun a b => cmp a b <= 0).
Abbreviation tied a := (fun y => cmp a y =? 0).

Lemma insertSorted_perm (x : SiteSummary) (l : list SiteSummary) :
  Permutation (insertSorted localeCompare x l) (x :: l).
Proof.
  induction l as [|y l IH]; simpl; [reflexivity|].
  destruct (cmp x y <=? 0); [reflexivity|].
  rewrite IH. apply perm_swap.
Qed.

Lemma sort_perm (l : list SiteSummary) :
  Permutation (sort localeCompare l) l.
Proof.
  induction l as [|x l IH]; simpl; [reflexivity|].
  rewrite insertSorted_perm. now constructor.
Qed.

Lemma insertSorted_sorted (x : SiteSummary) (l : list SiteSummary) :
  StronglySorted notAfter l ->
  StronglySorted notAfter (insertSorted localeCompare x l).
Proof.
  induction 1 as [|y l Hl IH Hy]; simpl.
  - repeat constructor.
  - destruct (Z.leb_spec (cmp x y) 0) as [Hle | Hgt].
    + constructor; [now constructor|].
      constructor; [assumption|].
      eapply Forall_impl; [|exact Hy].
      intros z Hz. unfold compareSites in *. eapply compare_trans; eauto.
    + constructor; [assumption|].
      assert (Hyx : cmp y x <= 0).
      { unfold compareSites in *.
        assert (localeCompare (sortKey x) (sortKey y) > 0) as G by lia.
        apply compare_flip in G. lia. }
      eapply Permutation_Forall.
      * symmetry. apply insertSorted_perm.
      * now constructor.
Qed.

Lemma sort_sorted (l : list SiteSummary) :
  StronglySorted notAfter (sort localeCompare l).
Proof.
  induction l as [|x l IH]; simpl; [constructor|].
  now apply insertSorted_sorted.
Qed.

Lemma tied_not_after (a x y : SiteSummary) :
  cmp a x = 0 -> cmp a y = 0 -> cmp x y <= 0.
Proof.
  unfold compareSites. intros Hx Hy.
  assert (localeCompare (sortKey x) (sortKey a) <= 0) as H.
  { destruct (Z_lt_le_dec 0 (localeCompare (sortKey x) (sortKey a))) as [G|G];
      [|assumption].
    assert (localeCompare (sortKey x) (sortKey a) > 0) as G' by lia.
    apply compare_flip in G'. lia. }
  eapply compare_trans; [exact H | lia].
Qed.

Lemma insertSorted_stable (a x : SiteSummary) (l : list SiteSummary) :
  filter (tied a) (insertSorted localeCompare x l) = filter (tied a) (x :: l).
Proof.
  induction l as [|y l IH]; [reflexivity|].
  cbn [insertSorted].
  destruct (Z.leb_spec (cmp x y) 0) as [Hle | Hgt]; [reflexivity|].
  cbn [filter] in *. rewrite IH.
  destruct (Z.eqb_spec (cmp a x) 0) as [Hx|Hx];
    destruct (Z.eqb_spec (cmp a y) 0) as [Hy|Hy]; try reflexivity.
  pose proof (tied_not_after a x y Hx Hy). lia.
Qed.

Lemma sort_stable (a : SiteSummary) (l : list SiteSummary) :
  filter (tied a) (sort localeCompare l) = filter (tied a) l.
Proof.
  induction l as [|x l IH]; [reflexivity|].
  cbn [sort fold_right]. fold (sort localeCompare l).
  rewrite insertSorted_stable. cbn [filter]. now rewrite IH.
Qed.

(** C7 (as amended): behind the gate, the site list is the map's entries
    ordered by [localeCompare] on a single key, the display name or, when
    that is missing or empty, the site id; every pair of the response
    respects that order, and sites whose keys compare equal stay in the
    order of the map's keys.  A session that fails the gate gets 401. *)
Theorem sites_sorted_by_name_or_id (s : SessionData) (m : SiteMap) :
  authorizedSites s = Some m ->
  (hasAnyAuthorization s = false ->
   sitesHandler localeCompare s = (s, notAuthenticated))
  /\ (hasAnyAuthorization s = true ->
      exists l,
        sitesHandler localeCompare s = (s, json (Sites l))
        /\ Permutation l (map (summary m) (keys m))
        /\ StronglySorted
             (fun a b => localeCompare (sortKey a) (sortKey b) <= 0) l
        /\ (forall a, filter (tied a) l
                      = filter (tied a) (map (summary m) (keys m)))
        /\ (forall a, In a l ->
              sortKey a = match displayName a with
                          | Some (String c n) => String c n
                          | _ => id a
                          end)).
Proof.
  intros Hm. unfold sitesHandler, requireAuth. split; intros Hgate; rewrite Hgate.
  - reflexivity.
  - rewrite (ensure_with_map _ _ Hm).
    exists (sort localeCompare (map (summary m) (keys m))).
    split; [reflexivity|]. split; [apply sort_perm|].
    split; [apply sort_sorted|]. split; [intros a; apply sort_stable|].
    intros a _. unfold sortKey, orElse.
    destruct (displayName a) as [[|c n]|]; reflexivity.
Qed.

End SitesFacts.

Section SitesExamples.
Import JsString Server Scenario.
Open Scope Z_scope.

Lemma codeUnitCompare_sign (a b : string) :
  (codeUnitCompare a b > 0 <-> String.compare a b = Gt)
  /\ (codeUnitCompare a b < 0 <-> String.compare a b = Lt)
  /\ (codeUnitCompare a b <= 0 <-> String.compare a b <> Gt).
Proof.
  unfold codeUnitCompare. destruct (String.compare a b);
    repeat split; intros; try lia; try congruence.
Qed.

Lemma codeUnitCompare_flip (a b : string) :
  codeUnitCompare a b > 0 <-> codeUnitCompare b a < 0.
Proof.
  rewrite (proj1 (codeUnitCompare_sign a b)).
  rewrite (proj1 (proj2 (codeUnitCompare_sign b a))).
  rewrite (String.compare_antisym a b).
  destruct (String.compare b a); simpl; split; congruence.
Qed.

Lemma codeUnitCompare_trans (a b c : string) :
  codeUnitCompare a b <= 0 -> codeUnitCompare b c <= 0 ->
  codeUnitCompare a c <= 0.
Proof.
  rewrite !(fun x y => proj2 (proj2 (codeUnitCompare_sign x y))).
  intros Hab Hbc.
  assert (Hle : forall x y, String.compare x y <> Gt ->
                            x = y \/ String_as_OT.lt x y).
  { intros x y H. destruct (String.compare x y) eqn:E.
    - left. now apply String_as_OT.cmp_eq.
    - right. now apply String_as_OT.cmp_lt.
    - congruence. }
  destruct (Hle _ _ Hab) as [->|Hab']; [assumption|].
  destruct (Hle _ _ Hbc) as [<-|Hbc']; [assumption|].
  pose proof (String_as_OT.lt_trans _ _ _ Hab' Hbc') as H.
  apply String_as_OT.cmp_lt in H. unfold String_as_OT.cmp in H.
  rewrite H. discriminate.
Qed.

Lemma sites_sorted_by_name_or_id_witness :
  exists l,
    sitesHandler codeUnitCompare twoShopsSession
    = (twoShopsSession, json (Sites l))
    /\ StronglySorted
         (fun a b => codeUnitCompare (sortKey a) (sortKey b) <= 0) l.
Proof.
  destruct (sites_sorted_by_name_or_id codeUnitCompare codeUnitCompare_flip
              codeUnitCompare_trans twoShopsSession
              [("b", site "b" (Some "Shop") (Some "tok"));
               ("a", site "a" (Some "Shop") (Some "tok"))] eq_refl)
    as [_ H].
  destruct (H eq_refl) as [l [H1 [_ [H2 _]]]].
  exists l. now split.
Defined.

(** C7 (as stated) fails: two sites with the same display name come back
    in the order of the map's keys, here id [b] before id [a]; the id
    does not break the tie. *)
Lemma sites_equal_names_keep_key_order :
  snd (sitesHandler codeUnitCompare twoShopsSession)
  = json (Sites [ {| id := "b"; displayName := Some "Shop";
                     shortName := Some "Shop" |};
                  {| id := "a"; displayName := Some "Shop";
                     shortName := Some "Shop" |} ])
  /\ codeUnitCompare "Shop" "Shop" = 0
  /\ codeUnitCompare "b" "a" > 0.
Proof. repeat split. Qed.

End SitesExamples.

(** ** Selection *)

Section SelectionFacts.
Import JsString App Scenario.

Lemma add_In (x k : string) (s : StringSet) :
  In k (add x s) <-> k = x \/ In k s.
Proof.
  unfold add. destruct (has s x) eqn:E.
  - apply has_In in E. split; [now right | intros [->|H]; assumption].
  - rewrite in_app_iff. simpl. intuition congruence.
Qed.

Lemma add_NoDup (x : string) (s : StringSet) : NoDup s -> NoDup (add x s).
Proof.
  intros H. unfold add. destruct (has s x) eqn:E; [assumption|].
  apply NoDup_app; [assumption | repeat constructor; simpl; tauto |].
  intros a Ha [<-|[]]. apply has_In in Ha. congruence.
Qed.

Lemma unusedIds_fold (rows : list ImageRow) :
  forall acc : StringSet,
    let ids := fold_left (fun ids img => if isUnused img then add (id img) ids
                                         else ids) rows acc in
    (NoDup acc -> NoDup ids)
    /\ (forall k, In k ids <->
                  In k acc
                  \/ exists img, In img rows /\ isUnused img = true /\ id img = k).
Proof.
  induction rows as [|r rows IH]; intros acc; simpl.
  - split; [trivial|]. intros k. split; [now left | now intros [H|[? [[] _]]]].
  - destruct (IH (if isUnused r then add (id r) acc else acc)) as [Hnd Hin].
    split.
    + intros H. apply Hnd. destruct (isUnused r); [now apply add_NoDup | assumption].
    + intros k. rewrite Hin. destruct (isUnused r) eqn:E.
      * rewrite add_In. split.
        -- intros [[->|H]|[img [H1 H2]]]; [right; exists r; auto | now left |].
           right. exists img. auto.
        -- intros [H|[img [[->|H1] [H2 H3]]]]; [left; now right | left; left; now subst |].
           right. now exists img.
      * split.
        -- intros [H|[img [H1 H2]]]; [now left|]. right. exists img. auto.
        -- intros [H|[img [[->|H1] [H2 H3]]]]; [now left | congruence |].
           right. now exists img.
Qed.

(** C8: with at least one unused row, one toggle from the empty selection
    selects exactly the ids of the unused rows, each once, and a second
    toggle empties the selection again. *)
Theorem toggleSelectAllUnused_once_twice (r : ScanResult) :
  (exists img, In img (images r) /\ isUnused img = true) ->
  let all := allUnusedIds (Some r) in
  let once := toggleSelectAllUnused all [] in
  (forall k, In k once <->
             exists img, In img (images r) /\ isUnused img = true /\ id img = k)
  /\ NoDup once
  /\ toggleSelectAllUnused all once = [].
Proof.
  intros [img [Himg Hun]] all once.
  destruct (unusedIds_fold (images r) []) as [Hnd Hin].
  fold (allUnusedIds (Some r)) in Hnd, Hin. fold all in Hnd, Hin.
  assert (Hne : all <> []).
  { intros E. assert (In (id img) all) as H by (apply Hin; right; now exists img).
    rewrite E in H. destruct H. }
  assert (Honce : once = all).
  { unfold once, toggleSelectAllUnused. destruct all as [|k ks]; [congruence|].
    reflexivity. }
  rewrite Honce. repeat split.
  - intros H. apply Hin in H as [[]|H]. exact H.
  - intros H. apply Hin. now right.
  - apply Hnd. constructor.
  - unfold toggleSelectAllUnused. destruct all as [|k ks] eqn:E; [congruence|].
    assert (forallb (fun j => has (k :: ks) j) (k :: ks) = true) as ->; [|reflexivity].
    apply forallb_forall. intros j Hj. now apply has_In.
Qed.

Lemma toggleSelectAllUnused_once_twice_witness :
  toggleSelectAllUnused (allUnusedIds (Some threeRows)) [] = ["a1"; "a3"]
  /\ toggleSelectAllUnused (allUnusedIds (Some threeRows)) ["a1"; "a3"] = [].
Proof.
  assert (H : exists img, In img (images threeRows) /\ isUnused img = true).
  { exists (mkRow "a1" "hero.png" "https://cdn.example/hero.png" "image/png" true).
    split; [now left | reflexivity]. }
  pose proof (toggleSelectAllUnused_once_twice threeRows H) as [_ [_ H3]].
  split; [reflexivity | exact H3].
Defined.

(** Read from a selection that already holds every unused id, one toggle
    empties it and the second selects everything again. *)
Lemma toggleSelectAllUnused_from_all (all : StringSet) :
  all <> [] ->
  toggleSelectAllUnused all all = []
  /\ toggleSelectAllUnused all (toggleSelectAllUnused all all) = all.
Proof.
  intros Hne. destruct all as [|k ks]; [congruence|].
  assert (H : toggleSelectAllUnused (k :: ks) (k :: ks) = []).
  { unfold toggleSelectAllUnused.
    assert (forallb (fun j => has (k :: ks) j) (k :: ks) = true) as ->;
      [|reflexivity].
    apply forallb_forall. intros j Hj. now apply has_In. }
  split; [exact H|]. rewrite H. reflexivity.
Qed.

End SelectionFacts.

(** ** The delete pipeline *)

Section DeleteFacts.
Import JsString App Scenario.

Variable webflow : Host.
Variable deleteAsset : string -> string -> ApiResult.
Variable siteId : string.

Abbreviation counts := (countsAsDeleted webflow deleteAsset siteId).
Abbreviation viaBackend := (backendOk deleteAsset siteId).
Abbreviation viaDesigner := (designerOk webflow).
Abbreviation pipeline := (deleteAll webflow deleteAsset siteId).

Lemma backendDelete_ok (k : string) :
  fst (fst (backendDelete deleteAsset siteId k)) = true <-> viaBackend k.
Proof.
  unfold backendDelete, backendOk. destruct (truthy siteId).
  - destruct (deleteAsset siteId k); simpl; split;
      try tauto; try discriminate; now intros [_ ?].
  - simpl. split; [discriminate | now intros [? _]].
Qed.

Lemma counted_spec (k : string) :
  counts k = true <-> viaBackend k \/ viaDesigner k.
Proof.
  unfold countsAsDeleted, designerOk. rewrite orb_true_iff, backendDelete_ok. tauto.
Qed.

Lemma deleteOne_fields (st : DeleteState) (k : string) :
  let st' := deleteOne webflow deleteAsset siteId (listedAssets webflow) st k in
  deleted st' = (if counts k then add k (deleted st) else deleted st)
  /\ failed st' = (if counts k then failed st else failed st ++ [k])%list
  /\ done st' = S (done st).
Proof.
  unfold deleteOne, countsAsDeleted.
  destruct (backendDelete deleteAsset siteId k) as [[ok a] sc]. simpl.
  repeat split.
Qed.

Lemma deleteLoop_spec (ids : list string) :
  forall st : DeleteState,
    let st' := fold_left (deleteOne webflow deleteAsset siteId (listedAssets webflow))
                         ids st in
    (forall k, In k (deleted st') <->
               In k (deleted st) \/ (In k ids /\ counts k = true))
    /\ (forall k, In k (failed st') <->
                  In k (failed st) \/ (In k ids /\ counts k = false))
    /\ done st' = done st + List.length ids.
Proof.
  induction ids as [|i ids IH]; intros st; simpl.
  - repeat split; try tauto; lia.
  - destruct (IH (deleteOne webflow deleteAsset siteId (listedAssets webflow) st i))
      as [Hd [Hf Hn]].
    destruct (deleteOne_fields st i) as [Ed [Ef En]].
    rewrite Ed in Hd. rewrite Ef in Hf. rewrite En in Hn.
    split; [|split].
    + intros k. rewrite Hd. destruct (counts i) eqn:Ei.
      * rewrite add_In. split.
        -- intros [[->|H]|[H1 H2]]; auto.
        -- intros [H|[[->|H1] H2]]; auto.
      * split.
        -- intros [H|[H1 H2]]; auto.
        -- intros [H|[[->|H1] H2]]; auto. congruence.
    + intros k. rewrite Hf. destruct (counts i) eqn:Ei.
      * split.
        -- intros [H|[H1 H2]]; auto.
        -- intros [H|[[->|H1] H2]]; auto. congruence.
      * rewrite in_app_iff. simpl. split.
        -- intros [[H|[->|[]]]|[H1 H2]]; auto.
        -- intros [H|[[->|H1] H2]]; auto.
    + lia.
Qed.

Lemma deleteAll_spec (ids : list string) :
  let st := pipeline ids in
  (forall k, In k (deleted st) <-> In k ids /\ counts k = true)
  /\ (forall k, In k (failed st) <-> In k ids /\ counts k = false)
  /\ done st = List.length ids.
Proof.
  destruct (deleteLoop_spec ids
              {| deleted := []; failed := []; authFailed := false;
                 scopeFailed := false; done := 0 |}) as [Hd [Hf Hn]].
  unfold deleteAll. simpl in *. split; [|split].
  - intros k. rewrite Hd. tauto.
  - intros k. rewrite Hf. tauto.
  - exact Hn.
Qed.

(** C5: for a non-empty selection the pipeline runs to the end over every
    selected id ([done] reaches the size of the selection and each id ends
    up deleted or failed, never both); an id is recorded as deleted
    exactly when the backend call or the local removal succeeded; no row
    of the resulting list has a deleted id; and every row whose id was
    recorded as failed is still in the list. *)
Theorem performDelete_outcome (prev : ScanResult) (selectedIds : StringSet) :
  selectedIds <> [] ->
  exists run,
    performDelete webflow deleteAsset siteId (Some prev) selectedIds = Some run
    /\ done (run_state run) = List.length selectedIds
    /\ (forall k, In k selectedIds ->
          (In k (deleted (run_state run)) <-> viaBackend k \/ viaDesigner k)
          /\ (In k (failed (run_state run)) <-> ~ In k (deleted (run_state run))))
    /\ (forall k, In k (deleted (run_state run)) \/ In k (failed (run_state run)) ->
                  In k selectedIds)
    /\ (forall img, In img (images (run_result run)) ->
                    In img (images prev)
                    /\ ~ In (id img) (deleted (run_state run)))
    /\ (forall img, In img (images prev) ->
                    In (id img) (failed (run_state run)) ->
                    In img (images (run_result run)))
    /\ ((forall k, In k selectedIds -> In k (map id (images prev))) ->
        forall k, In k (failed (run_state run)) ->
                  In k (map id (images (run_result run)))).
Proof.
  intros Hne.
  destruct selectedIds as [|i ids]; [congruence|].
  destruct (deleteAll_spec (i :: ids)) as [Hd [Hf Hn]].
  eexists. split; [unfold performDelete; reflexivity|].
  cbn [run_state run_result images].
  assert (Hkeep : forall img, In img (images prev) ->
            In (id img) (failed (pipeline (i :: ids))) ->
            In img (filter (fun img => negb (has (deleted (pipeline (i :: ids)))
                                                 (id img)))
                           (images prev))).
  { intros img Hin Hfail. apply filter_In. split; [assumption|].
    apply negb_true_iff. destruct (has _ (id img)) eqn:Eh; [|reflexivity].
    apply has_In, Hd in Eh. apply Hf in Hfail.
    destruct Eh as [_ Eh]. destruct Hfail as [_ Hfail]. congruence. }
  split; [exact Hn|]. split; [|split; [|split; [|split]]].
  - intros k Hk. rewrite Hd, Hf, <- counted_spec. split.
    + tauto.
    + split.
      * intros [_ Hc] [_ Hc']. congruence.
      * intros H. split; [assumption|].
        destruct (counts k); [|reflexivity].
        exfalso. apply H. now split.
  - intros k [H|H]; [apply Hd in H | apply Hf in H]; tauto.
  - intros img [Hin Hflt]%filter_In. split; [assumption|].
    intros H. apply has_In in H. now rewrite H in Hflt.
  - exact Hkeep.
  - intros Hsel k Hk.
    assert (In k (i :: ids)) as Hki by (apply Hf in Hk; tauto).
    apply Hsel, in_map_iff in Hki as [img [<- Himg]].
    apply in_map. now apply Hkeep.
Qed.

(** C10: when the host lists no asset under a selected id and
    [getAssetById] is missing, rejects or finds nothing, the local removal
    reports success, so the id is recorded as deleted and not as failed,
    whatever the backend call did and whether or not a site id is known. *)
Theorem unresolved_asset_counts_deleted (selectedIds : StringSet) (k : string) :
  In k selectedIds ->
  byId (listedAssets webflow) k = None ->
  (getAssetById webflow = None
   \/ exists lookup, getAssetById webflow = Some lookup
                     /\ (lookup k = Rejects \/ lookup k = Resolves None)) ->
  tryRemoveFromDesigner webflow None k = true
  /\ In k (deleted (pipeline selectedIds))
  /\ ~ In k (failed (pipeline selectedIds)).
Proof.
  intros Hk Hby Hget.
  assert (Htry : tryRemoveFromDesigner webflow None k = true).
  { unfold tryRemoveFromDesigner.
    destruct Hget as [-> | [lookup [-> [-> | ->]]]]; reflexivity. }
  assert (Hc : counts k = true).
  { unfold countsAsDeleted. rewrite Hby, Htry. apply orb_true_r. }
  destruct (deleteAll_spec selectedIds) as [Hd [Hf _]].
  split; [exact Htry|]. split.
  - apply Hd. now split.
  - intros H. apply Hf in H as [_ H]. congruence.
Qed.

End DeleteFacts.

Section DeleteExamples.
Import JsString App Scenario.

Lemma performDelete_outcome_witness :
  exists run,
    performDelete stubbornHost refusingBackend "site1" (Some threeRows)
                  ["a1"; "a3"] = Some run
    /\ deleted (run_state run) = ["a3"]
    /\ failed (run_state run) = ["a1"]
    /\ map id (images (run_result run)) = ["a1"; "a2"].
Proof.
  destruct (performDelete_outcome stubbornHost refusingBackend "site1"
              threeRows ["a1"; "a3"]) as [run [Hrun _]]; [discriminate|].
  exists run. split; [exact Hrun|].
  vm_compute in Hrun. injection Hrun as <-. repeat split.
Defined.

Lemma unresolved_asset_counts_deleted_witness :
  In "a3" (deleted (deleteAll stubbornHost refusingBackend "" ["a1"; "a3"])).
Proof.
  apply (unresolved_asset_counts_deleted stubbornHost refusingBackend ""
           ["a1"; "a3"] "a3").
  - right. now left.
  - reflexivity.
  - now left.
Defined.

End DeleteExamples.

(** ** The reference sweep *)

Section SweepFacts.
Import JsString App Scenario.

Lemma find_app_first {A : Type} (p : A -> bool) (l1 l2 : list A) :
  find p (l1 ++ l2) = match find p l1 with
                      | Some x => Some x
                      | None => find p l2
                      end.
Proof.
  induction l1 as [|x l1 IH]; simpl; [reflexivity|].
  now destruct (p x).
Qed.

Lemma imageById_cons (i : ImgInternal) (l : list ImgInternal) (k : string) :
  imageById (i :: l) k
  = match imageById l k with
    | Some e => Some e
    | None => if String.eqb k (img_id i) then Some i else None
    end.
Proof.
  unfold imageById. simpl. rewrite find_app_first.
  destruct (find _ (rev l)); [reflexivity|]. simpl.
  now destruct (String.eqb k (img_id i)).
Qed.

Lemma imageById_none (l : list ImgInternal) (k : string) :
  imageById l k = None <-> ~ In k (map img_id l).
Proof.
  induction l as [|i l IH]; [simpl; tauto|].
  rewrite imageById_cons. simpl.
  destruct (imageById l k) as [e|].
  - split; [discriminate|]. intros H. exfalso.
    assert (~ In k (map img_id l)) as H' by tauto.
    apply IH in H'. discriminate.
  - destruct (String.eqb_spec k (img_id i)) as [->|Hne].
    + split; [discriminate | tauto].
    + split; [|reflexivity]. intros _ [H|H]; [congruence|].
      now apply (proj1 IH).
Qed.

Lemma imageById_some (l : list ImgInternal) (k : string) (e : ImgInternal) :
  imageById l k = Some e -> In e l /\ img_id e = k.
Proof.
  unfold imageById. intros [H1 H2]%find_some.
  apply in_rev in H1. apply String.eqb_eq in H2. auto.
Qed.

(** *** The skeleton is preserved, and the maps only depend on it *)

Lemma setUsed_skeleton (k : string) (l : list ImgInternal) :
  skeleton (setUsed k l) = skeleton l.
Proof.
  induction l as [|i l IH]; simpl; [reflexivity|].
  destruct (_ && _); simpl; [reflexivity | now rewrite IH].
Qed.

Lemma markUsed_frame (r : option string) (st : ScanState) :
  skeleton (imgs (markUsed r st)) = skeleton (imgs st)
  /\ st_scannedPages (markUsed r st) = st_scannedPages st
  /\ st_scannedElements (markUsed r st) = st_scannedElements st.
Proof.
  unfold markUsed. destruct r as [k|]; [|auto].
  destruct (truthy k); simpl; [|auto].
  destruct (imageById (imgs st) k) as [e|]; [|auto].
  destruct (used e); simpl; [auto|]. now rewrite setUsed_skeleton.
Qed.

Lemma markAll_frame (refs : list (option string)) :
  forall st,
    skeleton (imgs (markAll refs st)) = skeleton (imgs st)
    /\ st_scannedPages (markAll refs st) = st_scannedPages st
    /\ st_scannedElements (markAll refs st) = st_scannedElements st.
Proof.
  induction refs as [|r refs IH]; intros st; simpl; [auto|].
  destruct (IH (markUsed r st)) as [H1 [H2 H3]].
  destruct (markUsed_frame r st) as [G1 [G2 G3]].
  unfold markAll in *. simpl. rewrite H1, H2, H3. auto.
Qed.

Lemma markAll_app (r1 r2 : list (option string)) (st : ScanState) :
  markAll (r1 ++ r2) st = markAll r2 (markAll r1 st).
Proof. unfold markAll. apply fold_left_app. Qed.

Lemma find_skeleton (q : string * string -> bool) (l l' : list ImgInternal) :
  skeleton l = skeleton l' ->
  option_map img_id (find (fun i => q (img_id i, img_url i)) l)
  = option_map img_id (find (fun i => q (img_id i, img_url i)) l').
Proof.
  revert l'. induction l as [|i l IH]; intros [|i' l'] H; try discriminate;
    [reflexivity|].
  simpl in H. injection H as E1 E2 H. simpl. rewrite E1, E2.
  destruct (q (img_id i', img_url i')); simpl; [now rewrite E1 | now apply IH].
Qed.

Lemma skeleton_rev (l : list ImgInternal) : skeleton (rev l) = rev (skeleton l).
Proof. unfold skeleton. apply map_rev. Qed.

Lemma urlToId_skeleton (l l' : list ImgInternal) (u : string) :
  skeleton l = skeleton l' -> urlToId l u = urlToId l' u.
Proof.
  intros H. unfold urlToId.
  apply (find_skeleton (fun p => truthy (snd p) && String.eqb u (snd p))).
  now rewrite !skeleton_rev, H.
Qed.

Lemma payloadRefs_steady : steady payloadRefs.
Proof.
  intros l l' p H. unfold payloadRefs. destruct p as [s|]; [|reflexivity].
  destruct (truthy s); [|reflexivity]. f_equal.
  apply map_ext. intros u. now apply urlToId_skeleton.
Qed.

Lemma flat_map_steady {A B : Type}
    (F : list ImgInternal -> A -> list (option string)) (g : B -> A) :
  steady F -> steady (fun l (bs : list B) => flat_map (fun b => F l (g b)) bs).
Proof.
  intros HF l l' bs H. induction bs as [|b bs IH]; simpl; [reflexivity|].
  now rewrite IH, (HF l l' (g b) H).
Qed.

Lemma pageImageRef_steady : steady pageImageRef.
Proof.
  intros l l' c H. unfold pageImageRef.
  destruct c as [[u|]|]; try reflexivity.
  destruct (truthy u); [|reflexivity]. now rewrite (urlToId_skeleton l l' u H).
Qed.

Lemma elementRefs_steady : steady elementRefs.
Proof.
  intros l l' el H. unfold elementRefs.
  f_equal. f_equal; [|f_equal].
  - destruct (getStyles el) as [[styles|]|]; try reflexivity.
    apply (flat_map_steady payloadRefs properties payloadRefs_steady l l' styles H).
  - destruct (getStyle el) as [[[style|]|]|]; try reflexivity.
    now apply payloadRefs_steady.
Qed.

Lemma pageRefs_steady : steady pageRefs.
Proof.
  intros l l' pg H. unfold pageRefs. destruct (opens pg); [|reflexivity].
  f_equal; [|f_equal]; try now apply pageImageRef_steady.
  apply (flat_map_steady elementRefs (fun e => e) elementRefs_steady l l' _ H).
Qed.

(** A loop whose body marks a steady list of references marks the
    concatenation of the lists. *)
Lemma fold_marks {A : Type} (F : list ImgInternal -> A -> list (option string))
    (body : ScanState -> A -> ScanState) :
  steady F ->
  (forall st a, body st a = markAll (F (imgs st) a) st) ->
  forall (xs : list A) (st : ScanState),
    fold_left body xs st = markAll (flat_map (F (imgs st)) xs) st.
Proof.
  intros HF Hbody xs. induction xs as [|x xs IH]; intros st; simpl; [reflexivity|].
  rewrite IH, Hbody, markAll_app. f_equal.
  assert (Hsk : skeleton (imgs (markAll (F (imgs st) x) st)) = skeleton (imgs st))
    by apply markAll_frame.
  clear IH. induction xs as [|y ys IHy]; simpl; [reflexivity|].
  now rewrite IHy, (HF _ _ y Hsk).
Qed.

(** *** Every step of the sweep marks the references it reads *)

Lemma markAll_then {A : Type} (F : list ImgInternal -> A -> list (option string))
    (a : A) (refs : list (option string)) (st : ScanState) :
  steady F ->
  markAll (F (imgs (markAll refs st)) a) (markAll refs st)
  = markAll (refs ++ F (imgs st) a) st.
Proof.
  intros HF. rewrite markAll_app. f_equal. apply HF, markAll_frame.
Qed.

Lemma markId_marks (st : ScanState) (k : string) :
  markId st k = markAll [Some k] st.
Proof.
  change (markAll [Some k] st) with (markUsed (Some k) st).
  unfold markId. destruct (imageById (imgs st) k) eqn:E; [reflexivity|].
  unfold markUsed. rewrite E. now destruct (truthy k).
Qed.

Lemma markUrl_marks (st : ScanState) (u : string) :
  markUrl st u = markAll [urlToId (imgs st) u] st.
Proof.
  change (markAll [urlToId (imgs st) u] st)
    with (markUsed (urlToId (imgs st) u) st).
  unfold markUrl. destruct (urlToId (imgs st) u) as [k|]; [|reflexivity].
  destruct (truthy k) eqn:E; [reflexivity|].
  unfold markUsed. now rewrite E.
Qed.

Lemma flat_map_single {A B : Type} (f : A -> B) (l : list A) :
  flat_map (fun x => [f x]) l = map f l.
Proof. induction l as [|x l IH]; simpl; [reflexivity | now rewrite IH]. Qed.

Lemma flat_map_after_map {A B C : Type} (f : B -> list C) (g : A -> B)
    (l : list A) :
  flat_map f (map g l) = flat_map (fun x => f (g x)) l.
Proof. induction l as [|x l IH]; simpl; [reflexivity | now rewrite IH]. Qed.

Lemma scanStylePayload_marks (st : ScanState) (payload : option string) :
  scanStylePayload st payload = markAll (payloadRefs (imgs st) payload) st.
Proof.
  unfold scanStylePayload, payloadRefs.
  destruct payload as [s|]; [|reflexivity].
  destruct (truthy s); [|reflexivity]. simpl.
  rewrite (fold_marks (fun _ k => [Some k]) markId);
    [| intros l l' a _; reflexivity | apply markId_marks].
  rewrite (fold_marks (fun l u => [urlToId l u]) markUrl);
    [| intros l l' a H; now rewrite (urlToId_skeleton l l' a H)
     | apply markUrl_marks].
  rewrite !flat_map_single.
  apply (markAll_then (fun l (us : list string) => map (urlToId l) us)).
  intros l l' us H. apply map_ext. intros u. now apply urlToId_skeleton.
Qed.

Lemma scanStyles_marks (st : ScanState) (styles : list StyleObj) :
  scanStyles st styles
  = markAll (flat_map (fun s => payloadRefs (imgs st) (properties s)) styles) st.
Proof.
  unfold scanStyles.
  rewrite (fold_marks payloadRefs scanStylePayload payloadRefs_steady
                      scanStylePayload_marks).
  now rewrite flat_map_after_map.
Qed.

Lemma scanElement_marks (st : ScanState) (el : ElementObj) :
  scanElement st el = markAll (elementRefs (imgs st) el) st.
Proof.
  unfold scanElement, elementRefs.
  set (r1 := if String.eqb (el_type el) "Image"
             then match getAsset el with Some (Resolves a) => [a] | _ => [] end
             else []).
  set (F2 := fun l (e : ElementObj) =>
               match getStyles e with
               | Some (Resolves styles) =>
                   flat_map (fun s => payloadRefs l (properties s)) styles
               | _ => []
               end).
  set (F3 := fun l (e : ElementObj) =>
               match getStyle e with
               | Some (Resolves (Some style)) => payloadRefs l (properties style)
               | _ => []
               end).
  set (r4 := match getBackgroundImage el with
             | Some (Resolves bg) => [bg]
             | _ => []
             end).
  assert (H2 : steady F2).
  { intros l l' e H. unfold F2. destruct (getStyles e) as [[styles|]|]; try reflexivity.
    apply (flat_map_steady payloadRefs properties payloadRefs_steady l l' styles H). }
  assert (H3 : steady F3).
  { intros l l' e H. unfold F3. destruct (getStyle e) as [[[style|]|]|]; try reflexivity.
    now apply payloadRefs_steady. }
  set (st1 := if String.eqb (el_type el) "Image" then _ else st).
  assert (E1 : st1 = markAll r1 st).
  { unfold st1, r1. destruct (String.eqb (el_type el) "Image"); [|reflexivity].
    destruct (getAsset el) as [[a|]|]; reflexivity. }
  set (st2 := match getStyles el with Some (Resolves styles) => _ | _ => st1 end).
  assert (E2 : st2 = markAll (F2 (imgs st1) el) st1).
  { unfold st2, F2. destruct (getStyles el) as [[styles|]|]; try reflexivity.
    apply scanStyles_marks. }
  set (st3 := match getStyle el with Some (Resolves (Some style)) => _ | _ => st2 end).
  assert (E3 : st3 = markAll (F3 (imgs st2) el) st2).
  { unfold st3, F3. destruct (getStyle el) as [[[style|]|]|]; try reflexivity.
    apply scanStylePayload_marks. }
  assert (E4 : match getBackgroundImage el with
               | Some (Resolves bg) => markUsed bg st3
               | _ => st3
               end = markAll r4 st3).
  { unfold r4. destruct (getBackgroundImage el) as [[bg|]|]; reflexivity. }
  rewrite E4, E3, E2, E1.
  rewrite (markAll_then F2 el r1 st H2).
  rewrite (markAll_then F3 el _ st H3).
  rewrite <- markAll_app. now rewrite <- !app_assoc.
Qed.

Lemma scanPageImage_marks (st : ScanState) (call : option (Outcome string)) :
  scanPageImage st call = markAll (pageImageRef (imgs st) call) st.
Proof.
  unfold scanPageImage, pageImageRef. destruct call as [[u|]|]; try reflexivity.
  destruct (truthy u); [apply markUrl_marks | reflexivity].
Qed.

Lemma markUsed_withCounters (p e : nat) (r : option string) (st : ScanState) :
  markUsed r (withCounters p e st) = withCounters p e (markUsed r st).
Proof.
  unfold markUsed, withCounters. destruct r as [k|]; [|reflexivity].
  destruct (truthy k); [|reflexivity]. simpl.
  destruct (imageById (imgs st) k) as [x|]; [|reflexivity].
  now destruct (used x).
Qed.

Lemma markAll_withCounters (p e : nat) (refs : list (option string)) :
  forall st, markAll refs (withCounters p e st) = withCounters p e (markAll refs st).
Proof.
  induction refs as [|r refs IH]; intros st; [reflexivity|].
  unfold markAll in *. simpl. now rewrite markUsed_withCounters, IH.
Qed.

Lemma withCounters_twice (p e p' e' : nat) (st : ScanState) :
  withCounters p' e' (withCounters p e st) = withCounters p' e' st.
Proof. reflexivity. Qed.

Lemma withCounters_self (st : ScanState) :
  withCounters (st_scannedPages st) (st_scannedElements st) st = st.
Proof. now destruct st. Qed.

Lemma scanPage_marks (st st' : ScanState) (page : PageObj) :
  scanPage st page = Some st' ->
  exists e,
    st' = withCounters
            (st_scannedPages st + (if opens page then 1 else 0)) e
            (markAll (pageRefs (imgs st) page) st).
Proof.
  unfold scanPage, pageRefs, opens, elementsOf.
  destruct (switchPage page) as [[]|].
  - intros H.
    assert (exists els,
               match getAllElements page with
               | Some (Resolves l) => Some l
               | Some Rejects => None
               | None => Some []
               end = Some els
               /\ match getAllElements page with
                  | Some (Resolves l) => l
                  | _ => []
                  end = els) as [els [E1 E2]].
    { destruct (getAllElements page) as [[l|]|]; [eauto | discriminate | eauto]. }
    rewrite E1 in H. rewrite E2. injection H as <-.
    exists (st_scannedElements st + List.length els).
    set (st0 := {| imgs := imgs st;
                   st_detectedReferences := st_detectedReferences st;
                   st_scannedPages := S (st_scannedPages st);
                   st_scannedElements := st_scannedElements st + List.length els |}).
    assert (E0 : st0 = withCounters (st_scannedPages st + 1)
                                    (st_scannedElements st + List.length els) st).
    { unfold st0, withCounters. f_equal. lia. }
    rewrite !scanPageImage_marks.
    rewrite (fold_marks elementRefs scanElement elementRefs_steady scanElement_marks).
    rewrite (markAll_then pageImageRef _ _ st0 pageImageRef_steady).
    rewrite (markAll_then pageImageRef _ _ st0 pageImageRef_steady).
    rewrite <- app_assoc.
    assert (Ei : imgs st0 = imgs st) by reflexivity. rewrite Ei.
    rewrite E0. apply markAll_withCounters.
  - intros [= <-]. exists (st_scannedElements st). simpl.
    rewrite Nat.add_0_r. unfold markAll. simpl. symmetry. apply withCounters_self.
Qed.

Lemma scanPages_marks (pages : list PageObj) :
  forall st st',
    scanPages st pages = Some st' ->
    exists e,
      st' = withCounters
              (st_scannedPages st + List.length (filter opens pages)) e
              (markAll (flat_map (pageRefs (imgs st)) pages) st).
Proof.
  induction pages as [|pg pages IH]; intros st st' H; simpl in H.
  - injection H as <-. exists (st_scannedElements st). simpl.
    rewrite Nat.add_0_r. symmetry. apply withCounters_self.
  - destruct (scanPage st pg) as [st1|] eqn:E1; [|discriminate].
    apply scanPage_marks in E1 as [e1 E1].
    apply IH in H as [e H]. exists e. rewrite H, E1. simpl.
    rewrite markAll_withCounters, withCounters_twice.
    assert (Hsk : skeleton (imgs (markAll (pageRefs (imgs st) pg) st))
                  = skeleton (imgs st)) by apply markAll_frame.
    assert (Hfm : flat_map (pageRefs (imgs (markAll (pageRefs (imgs st) pg) st))) pages
                  = flat_map (pageRefs (imgs st)) pages).
    { apply flat_map_ext. intros a. now apply pageRefs_steady. }
    rewrite Hfm, <- markAll_app. f_equal.
    destruct (opens pg); simpl; lia.
Qed.

Lemma scanBatches_step (f : nat) (st : ScanState) (x : StyleObj)
    (xs : list StyleObj) :
  scanBatches (S f) st (x :: xs)
  = scanBatches f (scanStyles st (firstn BATCH (x :: xs))) (skipn BATCH (x :: xs)).
Proof. reflexivity. Qed.

Lemma scanBatches_marks (fuel : nat) :
  forall st styles,
    List.length styles <= fuel ->
    scanBatches fuel st styles
    = markAll (flat_map (fun s => payloadRefs (imgs st) (properties s)) styles) st.
Proof.
  induction fuel as [|f IH]; intros st styles Hlen.
  - destruct styles; [reflexivity | simpl in Hlen; lia].
  - destruct styles as [|x xs]; [reflexivity|].
    rewrite scanBatches_step, scanStyles_marks.
    assert (Hb : 1 <= BATCH) by (unfold BATCH; lia).
    revert Hb. generalize BATCH as n. intros n Hb.
    rewrite IH.
    + rewrite (markAll_then
                 (fun l (ss : list StyleObj) =>
                    flat_map (fun s => payloadRefs l (properties s)) ss)
                 (skipn n (x :: xs)) _ st
                 (flat_map_steady payloadRefs properties payloadRefs_steady)).
      rewrite <- flat_map_app. now rewrite firstn_skipn.
    + rewrite length_skipn.
      change (List.length (x :: xs)) with (S (List.length xs)) in *. lia.
Qed.

(** *** What marking does to the flags and to the counter *)

Lemma known_existsb (l : list ImgInternal) (k : string) :
  existsb (fun j => String.eqb k (img_id j)) l = true <-> In k (map img_id l).
Proof.
  rewrite existsb_exists, in_map_iff. split.
  - intros [j [Hj E]]. apply String.eqb_eq in E. now exists j.
  - intros [j [E Hj]]. exists j. split; [assumption|]. now apply String.eqb_eq.
Qed.

Lemma countUsed_setUsed (l : list ImgInternal) (k : string) (e : ImgInternal) :
  imageById l k = Some e -> used e = false ->
  countUsed (setUsed k l) = S (countUsed l).
Proof.
  unfold countUsed.
  induction l as [|i l IH]; intros He Hu; [discriminate|].
  rewrite imageById_cons in He. cbn [setUsed].
  destruct (imageById l k) as [e'|] eqn:E.
  - injection He as ->.
    assert (existsb (fun j => String.eqb k (img_id j)) l = true) as ->.
    { apply known_existsb. destruct (imageById_some _ _ _ E) as [H1 H2].
      apply in_map_iff. now exists e. }
    cbn [negb]. rewrite andb_false_r. cbn [filter].
    specialize (IH eq_refl Hu).
    destruct (used i); cbn [List.length]; now rewrite IH.
  - destruct (String.eqb k (img_id i)); [|discriminate]. injection He as ->.
    assert (existsb (fun j => String.eqb k (img_id j)) l = false) as ->.
    { apply not_true_is_false. intros H. apply known_existsb in H.
      now apply imageById_none in E. }
    cbn [negb andb filter setFlag used]. rewrite Hu. reflexivity.
Qed.

Lemma markUsed_counted (r : option string) (st : ScanState) :
  counterExact st -> counterExact (markUsed r st).
Proof.
  unfold counterExact, markUsed. intros H. destruct r as [k|]; [|assumption].
  destruct (truthy k); [|assumption]. cbn [negb].
  destruct (imageById (imgs st) k) as [e|] eqn:E; [|assumption].
  destruct (used e) eqn:Eu; [assumption|]. cbn [imgs st_detectedReferences].
  now rewrite (countUsed_setUsed _ _ _ E Eu), H.
Qed.

Lemma markAll_counted (refs : list (option string)) :
  forall st, counterExact st -> counterExact (markAll refs st).
Proof.
  induction refs as [|r refs IH]; intros st H; [assumption|].
  apply (IH (markUsed r st)), markUsed_counted, H.
Qed.

Lemma setFlag_used (i : ImgInternal) : used i = true -> setFlag i = i.
Proof. destruct i. simpl. now intros ->. Qed.

Lemma same_id_same_image (l : list ImgInternal) (a b : ImgInternal) :
  NoDup (map img_id l) -> In a l -> In b l -> img_id a = img_id b -> a = b.
Proof.
  induction l as [|i l IH]; intros Hnd Ha Hb E; [destruct Ha|].
  simpl in Hnd. apply NoDup_cons_iff in Hnd as [Hi Hnd].
  destruct Ha as [->|Ha], Hb as [->|Hb]; auto.
  - exfalso. apply Hi. rewrite E. now apply in_map.
  - exfalso. apply Hi. rewrite <- E. now apply in_map.
Qed.

Lemma flag_miss (r : option string) (l : list ImgInternal) :
  (forall i, In i l -> hits r i = false) -> map (flag [r]) l = l.
Proof.
  intros H. rewrite <- (map_id l) at 2. apply map_ext_in.
  intros i Hi. unfold flag. simpl. now rewrite (H i Hi).
Qed.

Lemma hits_id (k : string) (i : ImgInternal) :
  hits (Some k) i = true -> img_id i = k.
Proof. simpl. intros [_ E]%andb_true_iff. apply String.eqb_eq in E. auto. Qed.

Lemma setUsed_flags (k : string) (l : list ImgInternal) :
  truthy k = true -> NoDup (map img_id l) ->
  setUsed k l = map (flag [Some k]) l.
Proof.
  intros Hk. induction l as [|i l IH]; intros Hnd; [reflexivity|].
  simpl in Hnd. apply NoDup_cons_iff in Hnd as [Hi Hnd].
  cbn [setUsed map]. unfold flag at 1. cbn [existsb hits]. rewrite Hk. cbn [andb].
  rewrite orb_false_r.
  destruct (String.eqb_spec k (img_id i)) as [->|Hne].
  - assert (existsb (fun j => String.eqb (img_id i) (img_id j)) l = false) as ->.
    { apply not_true_is_false. intros H. now apply known_existsb in H. }
    cbn. f_equal. symmetry. apply flag_miss. intros j Hj.
    apply not_true_is_false. intros H. apply hits_id in H.
    apply Hi. rewrite <- H. now apply in_map.
  - cbn. now rewrite (IH Hnd).
Qed.

Lemma markUsed_flags (r : option string) (st : ScanState) :
  NoDup (map img_id (imgs st)) ->
  imgs (markUsed r st) = map (flag [r]) (imgs st).
Proof.
  intros Hnd. unfold markUsed. destruct r as [k|].
  - destruct (truthy k) eqn:Hk; cbn [negb].
    + destruct (imageById (imgs st) k) as [e|] eqn:E.
      * destruct (imageById_some _ _ _ E) as [He1 He2].
        destruct (used e) eqn:Eu; cbn [imgs].
        -- symmetry. rewrite <- (map_id (imgs st)) at 2. apply map_ext_in.
           intros i Hi. unfold flag. destruct (existsb _ _) eqn:Ex; [|reflexivity].
           cbn [existsb] in Ex. rewrite orb_false_r in Ex. apply hits_id in Ex.
           assert (i = e) as -> by (eapply same_id_same_image; eauto; congruence).
           now apply setFlag_used.
        -- now apply setUsed_flags.
      * symmetry. apply flag_miss. intros i Hi.
        apply not_true_is_false. intros H. apply hits_id in H.
        apply imageById_none in E. apply E. rewrite <- H. now apply in_map.
    + symmetry. apply flag_miss. intros i _. simpl. now rewrite Hk.
  - symmetry. now apply flag_miss.
Qed.

Lemma flag_cons (r : option string) (refs : list (option string))
    (i : ImgInternal) :
  flag refs (flag [r] i) = flag (r :: refs) i.
Proof.
  unfold flag. cbn [existsb]. rewrite orb_false_r.
  destruct (hits r i) eqn:Hr; cbn [orb].
  - assert (existsb (fun q => hits q (setFlag i)) refs
            = existsb (fun q => hits q i) refs) as ->.
    { induction refs as [|q refs IH]; [reflexivity|]. simpl. rewrite IH.
      now destruct q. }
    now destruct (existsb (fun q => hits q i) refs).
  - reflexivity.
Qed.

Lemma markAll_flags (refs : list (option string)) :
  forall st,
    NoDup (map img_id (imgs st)) ->
    imgs (markAll refs st) = map (flag refs) (imgs st).
Proof.
  induction refs as [|r refs IH]; intros st Hnd.
  - simpl. symmetry. apply map_id.
  - change (markAll (r :: refs) st) with (markAll refs (markUsed r st)).
    assert (Hids : map img_id (imgs (markUsed r st)) = map img_id (imgs st)).
    { pose proof (proj1 (markUsed_frame r st)) as H. unfold skeleton in H.
      apply (f_equal (map fst)) in H. now rewrite !map_map in H. }
    rewrite IH by now rewrite Hids.
    rewrite (markUsed_flags r st Hnd), map_map.
    apply map_ext. intros i. apply flag_cons.
Qed.

(** *** The sweep as a whole *)

Lemma collectImages_unused (assets : list AssetObj) :
  Forall (fun i => used i = false) (collectImages assets).
Proof.
  unfold collectImages. apply Forall_forall. intros i Hi.
  apply in_flat_map in Hi as [a [_ Hi]]. unfold collectImage in Hi.
  destruct (negb _); [destruct Hi|]. destruct Hi as [<-|[]]. reflexivity.
Qed.

Lemma countUsed_unused (l : list ImgInternal) :
  Forall (fun i => used i = false) l -> countUsed l = 0.
Proof.
  unfold countUsed. induction 1 as [|i l Hi _ IH]; [reflexivity|].
  simpl. now rewrite Hi.
Qed.

(** The shape of a sweep that completes. *)
Lemma runScan_completes (webflow : Host) (elapsed : nat) (result : ScanResult)
    (screen : Screen) :
  runScan webflow elapsed = inr (result, screen) ->
  exists st1,
    scanPages (initialState (scannedImages webflow)) (pagesListed webflow)
    = Some st1
    /\ let st2 := scanBatches (List.length (stylesListed webflow)) st1
                              (stylesListed webflow) in
       images result = map toRow (imgs st2)
       /\ detectedReferences (meta result) = st_detectedReferences st2
       /\ scannedPages (meta result) = st_scannedPages st2.
Proof.
  unfold runScan, scannedImages, pagesListed, stylesListed, initialState.
  destruct (getAllAssets webflow) as [[allAssets|]|]; try discriminate.
  destruct (getAllPagesAndFolders webflow) as [[items|]|]; try discriminate;
    (destruct (scanPages _ _) as [st1|]; [|discriminate]);
    (destruct (getAllStyles webflow) as [[ss|]|]; try discriminate);
    intros H; injection H as <- _; exists st1; repeat split.
Qed.

(** A sweep that completes has marked exactly the references it read. *)
Lemma runScan_state (webflow : Host) (elapsed : nat) (result : ScanResult)
    (screen : Screen) :
  runScan webflow elapsed = inr (result, screen) ->
  exists e,
    let st := withCounters (List.length (filter opens (pagesListed webflow))) e
                (markAll (referencesRead webflow)
                         (initialState (scannedImages webflow))) in
    images result = map toRow (imgs st)
    /\ detectedReferences (meta result) = st_detectedReferences st
    /\ scannedPages (meta result) = st_scannedPages st.
Proof.
  intros H. apply runScan_completes in H as [st1 [Hpages Hres]].
  apply scanPages_marks in Hpages as [e Hst1].
  cbn [initialState imgs st_scannedPages] in Hst1. rewrite Nat.add_0_l in Hst1.
  exists e. cbv zeta in *.
  rewrite (scanBatches_marks _ st1 _ (le_n _)) in Hres.
  assert (Hst2 :
    markAll (flat_map (fun s => payloadRefs (imgs st1) (properties s))
                      (stylesListed webflow)) st1
    = withCounters (List.length (filter opens (pagesListed webflow))) e
        (markAll (referencesRead webflow) (initialState (scannedImages webflow)))).
  { unfold referencesRead. cbv zeta.
    rewrite Hst1, markAll_withCounters, markAll_app. f_equal. f_equal.
    apply flat_map_ext. intros a. apply payloadRefs_steady.
    cbn [withCounters imgs]. apply markAll_frame. }
  now rewrite Hst2 in Hres.
Qed.

(** C4 (as amended): when the sweep completes over assets with distinct
    ids, the rows are the image assets in enumeration order, and a row is
    marked used exactly when its (non-empty) id is among the references
    the sweep read: the asset bound to an Image element, an element's
    background image, a 24-digit hexadecimal token or the owner of a URL
    token in the payload of an element's styles, of its inline style or of
    a global style, and the owner of a page's Open Graph or search image
    URL, on the pages the host let it switch to.  [detectedReferences] is
    the number of rows marked used and [scannedPages] the number of pages
    switched to.  On the example document (two pages, A in an Image
    element, B's id in a style payload, C nowhere) the sweep reports one
    unused row, C, two scanned pages and two detected references. *)
Theorem runScan_marks_what_it_reads :
  (forall (webflow : Host) (elapsed : nat) (result : ScanResult) (screen : Screen),
      runScan webflow elapsed = inr (result, screen) ->
      NoDup (map img_id (scannedImages webflow)) ->
      map id (images result) = map img_id (scannedImages webflow)
      /\ (forall row, In row (images result) ->
            (isUnused row = false <->
             truthy (id row) = true
             /\ In (Some (id row)) (referencesRead webflow)))
      /\ detectedReferences (meta result)
         = List.length (filter (fun r => negb (isUnused r)) (images result))
      /\ scannedPages (meta result)
         = List.length (filter opens (pagesListed webflow)))
  /\ (exists rows,
         runScan exampleDocument 0
         = inr ({| images := rows; meta := mkMeta 2 1 1 2 0 3 |}, results)
         /\ unusedCount rows = 1
         /\ map id (filter isUnused rows) = [idC]).
Proof.
  split.
  - intros webflow elapsed result screen Hrun Hnd.
    destruct (runScan_state _ _ _ _ Hrun) as [e [Himg [Hrefs Hpages]]].
    cbn [withCounters imgs st_detectedReferences st_scannedPages] in *.
    set (refs := referencesRead webflow) in *.
    set (images0 := scannedImages webflow) in *.
    assert (Hflags : imgs (markAll refs (initialState images0))
                     = map (flag refs) images0)
      by (apply markAll_flags; exact Hnd).
    assert (Hun : Forall (fun i => used i = false) images0)
      by apply collectImages_unused.
    rewrite Hflags in Himg.
    split; [|split; [|split]].
    + rewrite Himg, !map_map. apply map_ext. intros i. unfold flag.
      now destruct (existsb _ refs).
    + intros row Hrow. rewrite Himg, map_map in Hrow.
      apply in_map_iff in Hrow as [i [<- Hi]].
      assert (Hu : used i = false) by (revert i Hi; now apply Forall_forall).
      assert (Hrow : isUnused (toRow (flag refs i))
                     = negb (existsb (fun r => hits r i) refs)).
      { unfold flag. destruct (existsb _ refs); simpl; [reflexivity | now rewrite Hu]. }
      assert (Hid : id (toRow (flag refs i)) = img_id i).
      { unfold flag. now destruct (existsb _ refs). }
      rewrite Hrow, Hid, negb_false_iff, existsb_exists. split.
      * intros [r [Hr Hh]]. destruct r as [k|]; [|discriminate].
        pose proof (hits_id _ _ Hh) as ->. simpl in Hh.
        apply andb_true_iff in Hh as [Hk _]. auto.
      * intros [Hk Hin]. exists (Some (img_id i)). split; [assumption|].
        simpl. now rewrite Hk, String.eqb_refl.
    + rewrite Hrefs, Himg.
      assert (Hc : counterExact (markAll refs (initialState images0))).
      { apply markAll_counted. unfold counterExact, initialState. simpl.
        symmetry. now apply countUsed_unused. }
      unfold counterExact in Hc. rewrite Hc, Hflags. unfold countUsed.
      clear. induction (map (flag refs) images0) as [|i l IH]; [reflexivity|].
      simpl. destruct (used i); simpl; now rewrite IH.
    + exact Hpages.
  - eexists. split; [vm_compute; reflexivity|]. split; reflexivity.
Qed.

Lemma runScan_marks_what_it_reads_witness :
  exists result,
    runScan exampleDocument 0 = inr (result, results)
    /\ detectedReferences (meta result)
       = List.length (filter (fun r => negb (isUnused r)) (images result))
    /\ scannedPages (meta result) = 2.
Proof.
  destruct (proj2 runScan_marks_what_it_reads) as [rows [Hrun _]].
  eexists. split; [exact Hrun|].
  destruct (proj1 runScan_marks_what_it_reads exampleDocument 0 _ _ Hrun)
    as [_ [_ [Hd Hp]]].
  - vm_compute. repeat constructor; simpl; intuition discriminate.
  - split; [exact Hd | exact Hp].
Defined.

(** C4 (as stated) fails.  An asset bound to an Image element of a page
    the host will not switch to is reported unused; so is an asset whose
    id occurs in a style payload right after another hexadecimal digit. *)
Lemma runScan_misses_references :
  (boundToImageElement closedPageDocument idA
   /\ exists rows m,
        runScan closedPageDocument 0 = inr ({| images := rows; meta := m |}, results)
        /\ In idA (map id (filter isUnused rows)))
  /\ (occursInStylePayload shiftedIdDocument idB
      /\ exists rows m,
           runScan shiftedIdDocument 0 = inr ({| images := rows; meta := m |}, results)
           /\ In idB (map id (filter isUnused rows))).
Proof.
  split; split.
  - exists (page false [imageElement idA]), (imageElement idA).
    repeat split; now left.
  - eexists. eexists. split; [vm_compute; reflexivity|]. now left.
  - exists (style ("color:#ff0000" ++ idB)), ("color:#ff0000" ++ idB).
    repeat split. now left.
  - eexists. eexists. split; [vm_compute; reflexivity|]. right. now left.
Qed.

(** A rejected [getAllElements] on a page the sweep switched to is not
    caught inside the loop: the whole sweep ends with an error. *)
Lemma scanPages_elements_reject (pages : list PageObj) :
  forall st,
    (exists pg, In pg pages /\ opens pg = true
                /\ getAllElements pg = Some Rejects) ->
    scanPages st pages = None.
Proof.
  induction pages as [|p pages IH]; intros st [pg [Hin [Hop Hrej]]];
    [destruct Hin|].
  cbn [scanPages]. destruct Hin as [->|Hin].
  - unfold scanPage. unfold opens in Hop.
    destruct (switchPage pg); [|discriminate]. now rewrite Hrej.
  - destruct (scanPage st p); [|reflexivity]. apply IH. now exists pg.
Qed.

Lemma runScan_elements_reject (webflow : Host) (elapsed : nat) :
  (exists pg, In pg (pagesListed webflow) /\ opens pg = true
              /\ getAllElements pg = Some Rejects) ->
  exists message, runScan webflow elapsed = inl message.
Proof.
  intros H. unfold runScan.
  destruct (getAllAssets webflow) as [[allAssets|]|]; eauto.
  unfold pagesListed in H.
  destruct (getAllPagesAndFolders webflow) as [[items|]|]; eauto;
    rewrite (scanPages_elements_reject _ _ H); eauto.
Qed.

Lemma runScan_elements_reject_witness :
  exists message, runScan brokenElementsDocument 0 = inl message.
Proof.
  apply (runScan_elements_reject brokenElementsDocument 0).
  exists (mkPage (Resolves tt) (Some Rejects) None None).
  repeat split. now left.
Defined.

End SweepFacts.

(** ** The selection and the listing *)

Section UiFacts.
Import JsString App AppUi.

Lemma discard_In (x y : string) (s : StringSet) :
  In y (discard x s) <-> In y s /\ y <> x.
Proof.
  unfold discard. rewrite filter_In, negb_true_iff, String.eqb_neq.
  split; intros [H1 H2]; split; auto.
Qed.

Lemma toggle_In (k y : string) (s : StringSet) :
  In y (toggle k s) <-> (y = k /\ ~ In k s) \/ (y <> k /\ In y s).
Proof.
  unfold toggle. destruct (has s k) eqn:E.
  - apply has_In in E. rewrite discard_In. split.
    + intros [H1 H2]. now right.
    + intros [[-> H]|[H1 H2]]; [contradiction | now split].
  - assert (~ In k s) as Hk by (intros H; apply has_In in H; congruence).
    rewrite add_In. split.
    + intros [->|H]; [now left|]. right. split; [|assumption].
      intros ->. contradiction.
    + intros [[-> _]|[_ H]]; [now left | now right].
Qed.

Lemma has_iff (s t : StringSet) (y : string) :
  (In y s <-> In y t) -> has s y = has t y.
Proof.
  intros H. destruct (has s y) eqn:E1, (has t y) eqn:E2; try reflexivity.
  - apply has_In, H, has_In in E1. congruence.
  - apply has_In, H, has_In in E2. congruence.
Qed.

Lemma toggle_NoDup (k : string) (s : StringSet) :
  NoDup s -> NoDup (toggle k s).
Proof.
  intros Hnd. unfold toggle. destruct (has s k).
  - now apply NoDup_filter.
  - now apply add_NoDup.
Qed.

(** Ticking a checkbox changes the membership of that id and of no other,
    keeps the selection free of repeats, and ticking it twice gives back a
    selection with the same members. *)
Theorem toggle_involution (k : string) (s : StringSet) :
  has (toggle k s) k = negb (has s k)
  /\ (forall y, y <> k -> has (toggle k s) y = has s y)
  /\ (forall y, In y (toggle k (toggle k s)) <-> In y s)
  /\ (NoDup s -> NoDup (toggle k s)).
Proof.
  split; [|split; [|split]].
  - destruct (has s k) eqn:E.
    + apply not_true_is_false. intros H. apply has_In, toggle_In in H.
      apply has_In in E. destruct H as [[_ H]|[H _]]; contradiction.
    + apply has_In, toggle_In. left. split; [reflexivity|].
      intros H. apply has_In in H. congruence.
  - intros y Hy. apply has_iff. rewrite toggle_In. split.
    + intros [[-> _]|[_ H]]; [contradiction | assumption].
    + intros H. now right.
  - intros y. rewrite !toggle_In.
    destruct (string_dec y k) as [->|Hne].
    + split.
      * intros [[_ H]|[H _]]; [|contradiction].
        destruct (has s k) eqn:E; [now apply has_In|].
        exfalso. apply H. left. split; [reflexivity|].
        intros Hin. apply has_In in Hin. congruence.
      * intros H. left. split; [reflexivity|].
        intros [[_ Hk]|[Hk _]]; contradiction.
    + split.
      * intros [[-> _]|[_ [[-> _]|[_ H]]]]; try contradiction. assumption.
      * intros H. right. split; [assumption|]. right. now split.
  - intros Hnd. unfold toggle. destruct (has s k).
    + now apply NoDup_filter.
    + now apply add_NoDup.
Qed.

(** The select-all button flips its own label: after a press the label
    reads the opposite of what it read before, as long as some row is
    unused; with no unused row a press leaves the selection as it is. *)
Theorem toggleSelectAllUnused_flips_label (allUnused sel : StringSet) :
  (allUnused <> [] ->
   allUnusedSelected allUnused (toggleSelectAllUnused allUnused sel)
   = negb (allUnusedSelected allUnused sel))
  /\ (allUnused = [] ->
      toggleSelectAllUnused allUnused sel = sel
      /\ allUnusedSelected allUnused sel = false).
Proof.
  split.
  - intros Hne. destruct allUnused as [|k ks]; [congruence|].
    unfold toggleSelectAllUnused, allUnusedSelected.
    destruct (forallb (fun j => has sel j) (k :: ks)) eqn:E.
    + reflexivity.
    + cbn [negb]. apply forallb_forall. intros j Hj. now apply has_In.
  - intros ->. split; reflexivity.
Qed.

Lemma unusedImages_unused (r : ScanResult) (query : string) (img : ImageRow) :
  In img (unusedImages (Some r) query) ->
  In img (images r) /\ isUnused img = true.
Proof.
  unfold unusedImages. destruct (negb _).
  - now intros H%filter_In.
  - intros [H _]%filter_In. now apply filter_In in H.
Qed.

Lemma allUnusedIds_In (r : ScanResult) (k : string) :
  In k (allUnusedIds (Some r)) <->
  exists img, In img (images r) /\ isUnused img = true /\ id img = k.
Proof.
  destruct (unusedIds_fold (images r) []) as [_ H].
  unfold allUnusedIds. rewrite H. split; [intros [[]|E]; exact E | now right].
Qed.

Lemma allUnusedIds_NoDup (r : ScanResult) : NoDup (allUnusedIds (Some r)).
Proof.
  destruct (unusedIds_fold (images r) []) as [H _]. apply H. constructor.
Qed.

(** Whatever the user ticks, searches and toggles on the results screen,
    the selection holds each id once and only ids of rows the sweep
    reported unused. *)
Theorem selectable_only_unused (r : ScanResult) (sel : StringSet) :
  selectable r sel ->
  NoDup sel
  /\ forall k, In k sel ->
       exists img, In img (images r) /\ isUnused img = true /\ id img = k.
Proof.
  induction 1 as [|sel query img _ [IHnd IH] Himg|sel _ [IHnd IH]].
  - split; [constructor | intros k []].
  - split; [now apply toggle_NoDup|].
    intros k Hk. apply toggle_In in Hk as [[-> _]|[_ Hk]]; [|now apply IH].
    apply unusedImages_unused in Himg as [H1 H2]. now exists img.
  - unfold toggleSelectAllUnused.
    destruct (allUnusedIds (Some r)) as [|a l] eqn:E; [now split|].
    destruct (forallb _ _).
    + split; [constructor | intros k []].
    + rewrite <- E. split; [apply allUnusedIds_NoDup|].
      intros k Hk. now apply allUnusedIds_In.
Qed.

Lemma selectable_only_unused_witness :
  NoDup ["a3"]
  /\ forall k, In k ["a3"] ->
       exists img, In img (images Scenario.threeRows)
                   /\ isUnused img = true /\ id img = k.
Proof.
  apply (selectable_only_unused Scenario.threeRows ["a3"]).
  change ["a3"] with (toggle (id (mkRow "a1" "hero.png"
                                   "https://cdn.example/hero.png" "image/png" true))
                             ["a1"; "a3"]).
  apply (selectable_row _ _ "HERO").
  - change ["a1"; "a3"]
      with (toggleSelectAllUnused (allUnusedIds (Some Scenario.threeRows)) []).
    apply selectable_all, selectable_start.
  - now left.
Defined.

Lemma lower_idempotent (c : ascii) : lower (lower c) = lower c.
Proof. destruct c as [[] [] [] [] [] [] [] []]; reflexivity. Qed.

Lemma lower_white_space (c : ascii) :
  is_white_space (lower c) = is_white_space c.
Proof. destruct c as [[] [] [] [] [] [] [] []]; reflexivity. Qed.

Lemma toLowerCase_idempotent (s : string) :
  toLowerCase (toLowerCase s) = toLowerCase s.
Proof.
  induction s as [|c s IH]; simpl; [reflexivity|].
  now rewrite lower_idempotent, IH.
Qed.

Lemma trimStart_lower (s : string) :
  trimStart (toLowerCase s) = toLowerCase (trimStart s).
Proof.
  induction s as [|c s IH]; simpl; [reflexivity|].
  rewrite lower_white_space. now destruct (is_white_space c).
Qed.

Lemma trimEnd_lower (s : string) :
  trimEnd (toLowerCase s) = toLowerCase (trimEnd s).
Proof.
  induction s as [|c s IH]; simpl; [reflexivity|].
  rewrite IH, lower_white_space.
  destruct (trimEnd s); simpl; [now destruct (is_white_space c) | reflexivity].
Qed.

(** The listing shows unused rows only, shows all of them while the search
    box is blank, and does not depend on the letter case of the query. *)
Theorem unusedImages_listing (r : ScanResult) (query : string) :
  (forall img, In img (unusedImages (Some r) query) ->
               In img (images r) /\ isUnused img = true)
  /\ (trim query = "" -> unusedImages (Some r) query = filter isUnused (images r))
  /\ unusedImages (Some r) (toLowerCase query) = unusedImages (Some r) query.
Proof.
  split; [|split].
  - intros img. apply unusedImages_unused.
  - intros H. unfold unusedImages. now rewrite H.
  - unfold unusedImages, trim.
    now rewrite trimStart_lower, trimEnd_lower, toLowerCase_idempotent.
Qed.

End UiFacts.

(** ** More on the delete pipeline *)

Section DeleteRunFacts.
Import JsString App.

Variable webflow : Host.
Variable deleteAsset : string -> string -> ApiResult.
Variable siteId : string.

Abbreviation turn := (deleteOne webflow deleteAsset siteId (listedAssets webflow)).
Abbreviation sawAuth := (fun k => snd (fst (backendDelete deleteAsset siteId k))).
Abbreviation sawScope := (fun k => snd (backendDelete deleteAsset siteId k)).

Lemma deleteLoop_flags (ids : list string) :
  forall st : DeleteState,
    authFailed (fold_left turn ids st) = authFailed st || existsb sawAuth ids
    /\ scopeFailed (fold_left turn ids st) = scopeFailed st || existsb sawScope ids.
Proof.
  induction ids as [|i ids IH]; intros st; simpl.
  - now rewrite !orb_false_r.
  - destruct (IH (turn st i)) as [Ha Hs]. rewrite Ha, Hs.
    unfold deleteOne.
    destruct (backendDelete deleteAsset siteId i) as [[ok a] sc]. simpl.
    now rewrite !orb_assoc.
Qed.

Lemma sawAuth_spec (k : string) :
  sawAuth k = true <->
  truthy siteId = true /\ exists msg, deleteAsset siteId k = ApiError 401 msg.
Proof.
  unfold backendDelete. destruct (truthy siteId); simpl.
  - destruct (deleteAsset siteId k) as [|st msg]; simpl.
    + split; [discriminate | now intros [_ [m H]]].
    + rewrite Nat.eqb_eq. split.
      * intros ->. split; [reflexivity | now exists msg].
      * now intros [_ [m [= -> _]]].
  - split; [discriminate | now intros [H _]].
Qed.

Lemma sawScope_spec (k : string) :
  sawScope k = true <->
  truthy siteId = true
  /\ exists st msg, deleteAsset siteId k = ApiError st msg
                    /\ (st = 403
                        \/ includes "scope" (toLowerCase msg) = true
                        \/ includes "assets:write" (toLowerCase msg) = true).
Proof.
  unfold backendDelete. destruct (truthy siteId); simpl.
  - destruct (deleteAsset siteId k) as [|st msg]; simpl.
    + split; [discriminate | now intros [_ [st [m [H _]]]]].
    + rewrite !orb_true_iff, Nat.eqb_eq. split.
      * intros H. split; [reflexivity|]. exists st, msg. tauto.
      * intros [_ [st' [m [[= -> ->] H]]]]. tauto.
  - split; [discriminate | now intros [H _]].
Qed.

(** The note shown after a run: none when nothing failed; otherwise the
    authentication note as soon as any selected id was refused with 401
    (also when that id was then removed locally), else the permission note
    when some call was refused with 403 or with a message that mentions a
    scope, else the generic note. *)
Theorem performDelete_note (prev : ScanResult) (selectedIds : StringSet) :
  selectedIds <> [] ->
  exists run,
    performDelete webflow deleteAsset siteId (Some prev) selectedIds = Some run
    /\ (run_error run = None <-> failed (run_state run) = [])
    /\ (run_error run = Some AuthIssue <->
        failed (run_state run) <> []
        /\ truthy siteId = true
        /\ exists k msg, In k selectedIds
                         /\ deleteAsset siteId k = ApiError 401 msg)
    /\ (run_error run = Some PermissionIssue <->
        failed (run_state run) <> []
        /\ truthy siteId = true
        /\ (forall k msg, In k selectedIds ->
                          deleteAsset siteId k <> ApiError 401 msg)
        /\ exists k st msg,
             In k selectedIds /\ deleteAsset siteId k = ApiError st msg
             /\ (st = 403
                 \/ includes "scope" (toLowerCase msg) = true
                 \/ includes "assets:write" (toLowerCase msg) = true)).
Proof.
  intros Hne. destruct selectedIds as [|i ids]; [congruence|].
  eexists. split; [unfold performDelete; reflexivity|].
  cbn [run_state run_error].
  destruct (deleteLoop_flags (i :: ids)
              {| deleted := []; failed := []; authFailed := false;
                 scopeFailed := false; done := 0 |}) as [Ha Hs].
  cbn [authFailed scopeFailed orb] in Ha, Hs.
  unfold deleteAll. rewrite Ha, Hs.
  set (st := fold_left _ (i :: ids) _).
  assert (Hauth : existsb sawAuth (i :: ids) = true <->
                  truthy siteId = true
                  /\ exists k msg, In k (i :: ids)
                                   /\ deleteAsset siteId k = ApiError 401 msg).
  { rewrite existsb_exists. split.
    - intros [k [Hk H]]. apply sawAuth_spec in H as [H1 [msg H2]].
      split; [assumption | now exists k, msg].
    - intros [H1 [k [msg [Hk H2]]]]. exists k. split; [assumption|].
      apply sawAuth_spec. split; [assumption | now exists msg]. }
  assert (Hscope : existsb sawScope (i :: ids) = true <->
                   truthy siteId = true
                   /\ exists k st msg,
                        In k (i :: ids) /\ deleteAsset siteId k = ApiError st msg
                        /\ (st = 403
                            \/ includes "scope" (toLowerCase msg) = true
                            \/ includes "assets:write" (toLowerCase msg) = true)).
  { rewrite existsb_exists. split.
    - intros [k [Hk H]]. apply sawScope_spec in H as [H1 [st' [msg [H2 H3]]]].
      split; [assumption | now exists k, st', msg].
    - intros [H1 [k [st' [msg [Hk [H2 H3]]]]]]. exists k. split; [assumption|].
      apply sawScope_spec. split; [assumption | now exists st', msg]. }
  assert (Hno : existsb sawAuth (i :: ids) = false -> truthy siteId = true ->
                forall k msg, In k (i :: ids) ->
                              deleteAsset siteId k <> ApiError 401 msg).
  { intros Hf Et k msg Hk E.
    assert (existsb sawAuth (i :: ids) = true) as Ht
        by (apply Hauth; split; [assumption | now exists k, msg]).
    congruence. }
  assert (Hcons : forall (f : string) fs, f :: fs <> []) by discriminate.
  destruct (failed st) as [|f fs].
  - split; [tauto|]. split; split; try discriminate; now intros [H _].
  - specialize (Hcons f fs).
    split; [split; discriminate|].
    destruct (existsb sawAuth (i :: ids)) eqn:Ea;
      destruct (existsb sawScope (i :: ids)) eqn:Es.
    + split; split; try discriminate.
      * intros _. split; [assumption | now apply Hauth].
      * reflexivity.
      * intros [_ [Ht [Hn _]]]. destruct (proj1 Hauth eq_refl) as [_ [k [msg [Hk E]]]].
        exfalso. exact (Hn k msg Hk E).
    + split; split; try discriminate.
      * intros _. split; [assumption | now apply Hauth].
      * reflexivity.
      * intros [_ [Ht [_ H]]]. assert (false = true) by (apply Hscope; now split).
        discriminate.
    + split; split; try discriminate.
      * intros [_ H]. apply Hauth in H. discriminate.
      * intros _. destruct (proj1 Hscope eq_refl) as [Ht Hex].
        split; [assumption|]. split; [assumption|]. split; [|assumption].
        now apply Hno.
      * reflexivity.
    + split; split; try discriminate.
      * intros [_ H]. apply Hauth in H. discriminate.
      * intros [_ [Ht [_ H]]]. assert (false = true) by (apply Hscope; now split).
        discriminate.
Qed.

(** After a run the success screen is shown exactly when the new list has
    no unused row left, and the asset count shown drops by the number of
    deleted ids. *)
Theorem performDelete_screen (prev : ScanResult) (selectedIds : StringSet) :
  selectedIds <> [] ->
  exists run,
    performDelete webflow deleteAsset siteId (Some prev) selectedIds = Some run
    /\ (run_screen run = success <->
        forall img, In img (images (run_result run)) -> isUnused img = false)
    /\ scannedAssets (meta (run_result run))
       = scannedAssets (meta prev) - List.length (deleted (run_state run)).
Proof.
  intros Hne. destruct selectedIds as [|i ids]; [congruence|].
  eexists. split; [unfold performDelete; reflexivity|].
  cbn [run_state run_result run_screen images meta scannedAssets].
  split; [|reflexivity].
  set (dl := deleted _).
  assert (H : List.length (filter (fun img => isUnused img && negb (has dl (id img)))
                                  (images prev)) = 0
              <-> forall img, In img (filter (fun img => negb (has dl (id img)))
                                             (images prev)) ->
                              isUnused img = false).
  { induction (images prev) as [|x l IH]; simpl.
    - split; [intros _ img [] | reflexivity].
    - destruct (has dl (id x)) eqn:E; simpl.
      + rewrite andb_false_r. exact IH.
      + rewrite andb_true_r. destruct (isUnused x) eqn:Eu; simpl.
        * split; [discriminate|]. intros H. specialize (H x (or_introl eq_refl)).
          congruence.
        * rewrite IH. split.
          -- intros H img [<-|Hin]; auto.
          -- intros H img Hin. apply H. now right. }
  rewrite <- H.
  destruct (List.length _); simpl; split; congruence.
Qed.

End DeleteRunFacts.

Section DeleteRunExamples.
Import JsString App Scenario.

Lemma performDelete_note_witness :
  exists run,
    performDelete stubbornHost refusingBackend "site1" (Some threeRows)
                  ["a1"; "a3"] = Some run
    /\ run_error run = Some PermissionIssue.
Proof.
  destruct (performDelete_note stubbornHost refusingBackend "site1"
              threeRows ["a1"; "a3"] ltac:(discriminate))
    as [run [Hrun [_ [_ [_ H]]]]].
  exists run. split; [exact Hrun|]. apply H.
  vm_compute in Hrun. injection Hrun as <-.
  split; [discriminate|]. split; [reflexivity|]. split.
  - intros k msg _. discriminate.
  - exists "a1", 403, "Site is not authorized for this session".
    split; [now left|]. split; [reflexivity | now left].
Defined.

Lemma performDelete_screen_witness :
  exists run,
    performDelete stubbornHost refusingBackend "site1" (Some threeRows)
                  ["a1"; "a3"] = Some run
    /\ run_screen run = results.
Proof.
  destruct (performDelete_screen stubbornHost refusingBackend "site1"
              threeRows ["a1"; "a3"] ltac:(discriminate))
    as [run [Hrun _]].
  exists run. split; [exact Hrun|].
  vm_compute in Hrun. now injection Hrun as <-.
Defined.

End DeleteRunExamples.

(** ** What the delete route never does *)

Section DeleteRouteSafety.
Import JsString Server Scenario.

Lemma getAccessTokenForSite_frame (s : SessionData) (m : SiteMap) (k : string) :
  authorizedSites s = Some m -> fst (getAccessTokenForSite s k) = s.
Proof.
  intros Hm. unfold getAccessTokenForSite. now rewrite (ensure_with_map _ _ Hm).
Qed.

(** The delete route never changes the session, and it calls the upstream
    delete only for a session that passes the gate, for a site id the map
    answers for, with non-blank ids and a non-empty token; it answers 204
    only after such a call. *)
Theorem delete_route_guarded (api : WebflowApi) (s : SessionData)
    (siteIdParam assetIdParam : string) :
  let out := deleteAssetHandler api s siteIdParam assetIdParam in
  fst (fst out) = s
  /\ (forall c, In c (snd out) ->
        hasAnyAuthorization s = true
        /\ trim siteIdParam <> "" /\ trim assetIdParam <> ""
        /\ exists m a token,
             authorizedSites s = Some m
             /\ get m (trim siteIdParam) <> Undefined
             /\ assets api = Some a /\ token <> ""
             /\ c = fst (delete a token (trim assetIdParam)))
  /\ (status (snd (fst out)) = 204%Z -> snd out <> []).
Proof.
  unfold deleteAssetHandler, requireAuth.
  destruct (hasAnyAuthorization s) eqn:Hgate;
    [|cbn; split; [reflexivity | split; [intros c [] | discriminate]]].
  destruct (truthy (trim siteIdParam)) eqn:Hs;
    [|cbn; split; [reflexivity | split; [intros c [] | discriminate]]].
  destruct (truthy (trim assetIdParam)) eqn:Ha;
    [|cbn; split; [reflexivity | split; [intros c [] | discriminate]]].
  cbn [negb orb].
  assert (exists m, authorizedSites s = Some m) as [m Hm].
  { unfold hasAnyAuthorization in Hgate.
    destruct (authorizedSites s) as [m|]; [now exists m | discriminate]. }
  rewrite (ensure_with_map _ _ Hm).
  assert (Hrest : get m (trim siteIdParam) <> Undefined ->
    let out :=
      (let '(s2, token) := getAccessTokenForSite s (trim siteIdParam) in
       if negb (truthy token) then (s2, notAuthenticated, [])
       else match assets api with
            | Some a =>
                let (call, u) := delete a token (trim assetIdParam) in
                match u with
                | Resolved => (s2, {| status := 204; body := Empty |}, [call])
                | RejectedWith st msg =>
                    (s2, errorHandler (WebflowError st msg), [call])
                end
            | None => (s2, errorHandler TypeError, [])
            end) in
    fst (fst out) = s
    /\ (forall c, In c (snd out) ->
          true = true
          /\ trim siteIdParam <> "" /\ trim assetIdParam <> ""
          /\ exists m a token,
               authorizedSites s = Some m
               /\ get m (trim siteIdParam) <> Undefined
               /\ assets api = Some a /\ token <> ""
               /\ c = fst (delete a token (trim assetIdParam)))
    /\ (status (snd (fst out)) = 204%Z -> snd out <> [])).
  { intros Hget.
    pose proof (getAccessTokenForSite_frame s m (trim siteIdParam) Hm) as Hf.
    destruct (getAccessTokenForSite s (trim siteIdParam)) as [s2 token].
    simpl in Hf. subst s2.
    destruct (truthy token) eqn:Ht;
      [|cbn; split; [reflexivity | split; [intros c [] | discriminate]]].
    cbn [negb]. destruct (assets api) as [a|] eqn:Hapi;
      [|cbn; split; [reflexivity | split; [intros c [] | discriminate]]].
    destruct (delete a token (trim assetIdParam)) as [call u] eqn:Hd.
    destruct u; cbn; (split; [reflexivity | split; [|discriminate]]);
      (intros c [<-|[]]; split; [reflexivity|];
       split; [now apply truthy_true|]; split; [now apply truthy_true|];
       exists m, a, token; repeat split; try assumption;
       [now apply truthy_true | now rewrite Hd]). }
  destruct (get m (trim siteIdParam)) eqn:Hget.
  - apply Hrest. discriminate.
  - apply Hrest. discriminate.
  - cbn. split; [reflexivity | split; [intros c [] | discriminate]].
Qed.

(** With the API object webflow.js exports the route makes no upstream
    call at all and never answers 204: every request ends in 400, 401, 403
    or the generic 500. *)
Theorem delete_route_as_built (s : SessionData)
    (siteIdParam assetIdParam : string) :
  let out := deleteAssetHandler webflowApi s siteIdParam assetIdParam in
  snd out = []
  /\ In (status (snd (fst out))) [400; 401; 403; 500]%Z.
Proof.
  unfold deleteAssetHandler, requireAuth.
  destruct (hasAnyAuthorization s); [|cbn; tauto].
  destruct (negb (truthy (trim siteIdParam)) || negb (truthy (trim assetIdParam)));
    [cbn; tauto|].
  destruct (ensureAuthorizedSites s) as [s1 m].
  assert (Hrest :
    let out :=
      (let '(s2, token) := getAccessTokenForSite s1 (trim siteIdParam) in
       if negb (truthy token) then (s2, notAuthenticated, [])
       else (s2, errorHandler TypeError, @nil ApiCall)) in
    snd out = [] /\ In (status (snd (fst out))) [400; 401; 403; 500]%Z).
  { destruct (getAccessTokenForSite s1 (trim siteIdParam)) as [s2 token].
    destruct (negb (truthy token)); cbn; tauto. }
  destruct (get m (trim siteIdParam)); try exact Hrest. cbn. tauto.
Qed.

End DeleteRouteSafety.

(** ** The authorize URL *)

Section AuthorizeFacts.
Import JsString Webflow.

(** Whatever [WEBFLOW_SCOPES] holds, the authorize URL asks for the four
    scopes the app needs, in their fixed order and ahead of anything the
    operator configured; what follows them is never one of the four. *)
Theorem authorizeUrl_requests_required (clientId redirectUri : string)
    (configured workspace : option string) :
  exists extras,
    In ("scope",
        join " " (["sites:read"; "authorized_user:read"; "assets:read";
                   "assets:write"] ++ extras))
       (authorizeUrl clientId redirectUri configured workspace)
    /\ forall x, In x extras ->
         word x
         /\ ~ In x ["sites:read"; "authorized_user:read"; "assets:read";
                    "assets:write"].
Proof.
  exists (filter (fun x => negb (has (scopeList REQUIRED_SCOPES) x))
                 (scopeList (match configured with
                             | Some p => p
                             | None => ""
                             end))).
  split.
  - unfold authorizeUrl. apply in_or_app. left.
    right. right. right. left. f_equal.
    rewrite scopeParam_eq. reflexivity.
  - intros x [Hx Hf]%filter_In. split.
    + clear Hf. revert x Hx. apply Forall_forall, scopeList_words.
    + intros Hin. apply negb_true_iff in Hf.
      assert (has (scopeList REQUIRED_SCOPES) x = true) as Hh
          by (apply has_In; exact Hin).
      congruence.
Qed.

End AuthorizeFacts.

(** ** The extension against the backend as built *)

Section AsBuiltFacts.
Import JsString Server App.

Variable webflow : Host.
Variable base : string.
Variable reason : Z -> string.
Variable stringify : Body -> string.
Variable s : SessionData.
Variable siteId : string.

Abbreviation remoteDelete := (Api.deleteAsset base reason stringify webflowApi s).



Lemma remoteDelete_never_ok (site k : string) : remoteDelete site k <> ApiOk.
Proof.
  unfold Api.deleteAsset.
  assert (Hthrows : forall r,
            Api.ok (Api.overTheWire reason stringify r) = false ->
            match Api.request base reason stringify r with
            | Api.Json _ => ApiOk
            | Api.Throws st m => ApiError st m
            end <> ApiOk).
  { intros r Hok. unfold Api.request. destruct (negb (truthy base));
      [discriminate|]. rewrite Hok. discriminate. }
  apply Hthrows.
  unfold deleteAssetHandler, requireAuth.
  destruct (hasAnyAuthorization s); [|reflexivity].
  destruct (negb (truthy (trim (trim site))) || negb (truthy (trim (trim k))));
    [reflexivity|].
  destruct (ensureAuthorizedSites s) as [s1 m].
  assert (Hrest :
    Api.ok (Api.overTheWire reason stringify
              (snd (fst (let '(s2, token) :=
                           getAccessTokenForSite s1 (trim (trim site)) in
                         if negb (truthy token) then (s2, notAuthenticated, [])
                         else (s2, errorHandler TypeError, @nil ApiCall)))))
    = false).
  { destruct (getAccessTokenForSite s1 (trim (trim site))) as [s2 token].
    now destruct (negb (truthy token)). }
  destruct (get m (trim (trim site))); try exact Hrest. reflexivity.
Qed.

(** Against the backend as built no asset is ever deleted through the
    backend: a run records an id as deleted exactly when the removal inside
    the Designer succeeded. *)
Theorem as_built_deletes_locally_only (prev : ScanResult)
    (selectedIds : StringSet) :
  selectedIds <> [] ->
  exists run,
    performDelete webflow remoteDelete siteId (Some prev) selectedIds = Some run
    /\ forall k, In k selectedIds ->
         (In k (deleted (run_state run)) <-> designerOk webflow k).
Proof.
  intros Hne. destruct selectedIds as [|i ids]; [congruence|].
  eexists. split; [unfold performDelete; reflexivity|].
  cbn [run_state]. intros k Hk.
  destruct (deleteAll_spec webflow remoteDelete siteId (i :: ids)) as [Hd _].
  rewrite Hd, counted_spec. split.
  - intros [_ [[_ H]|H]]; [|exact H]. now apply remoteDelete_never_ok in H.
  - intros H. split; [assumption | now right].
Qed.

End AsBuiltFacts.

Section AsBuiltExamples.
Import JsString Server App Scenario.


Lemma as_built_deletes_locally_only_witness :
  exists run,
    performDelete stubbornHost
                  (Api.deleteAsset "https://backend.example" (fun _ => "")
                                   (fun _ => "{}") webflowApi oneSiteSession)
                  "site1" (Some threeRows) ["a1"; "a3"] = Some run
    /\ deleted (run_state run) = ["a3"].
Proof.
  destruct (as_built_deletes_locally_only stubbornHost
              "https://backend.example" (fun _ => "") (fun _ => "{}")
              oneSiteSession "site1"
              threeRows ["a1"; "a3"] ltac:(discriminate)) as [run [Hrun _]].
  exists run. split; [exact Hrun|].
  vm_compute in Hrun. now injection Hrun as <-.
Defined.

End AsBuiltExamples.

Section ProgressFacts.
Import AppUi.

Lemma progressStep_bounds (p : Z) (e : ProgressEvent) :
  (0 <= p <= 100)%Z ->
  (p <= progressStep p e <= 100)%Z.
Proof.
  intros Hp. destruct e as [v|]; cbn [progressStep].
  - unfold updateProgress. lia.
  - unfold tick. destruct (92 <=? p)%Z eqn:E; [lia|].
    apply Z.leb_gt in E. lia.
Qed.

Lemma progress_fold_bounds (events : list ProgressEvent) (p : Z) :
  (0 <= p <= 100)%Z ->
  (p <= fold_left progressStep events p <= 100)%Z.
Proof.
  revert p. induction events as [|e es IH]; intros p Hp; cbn [fold_left].
  - lia.
  - pose proof (progressStep_bounds p e Hp) as H1.
    assert (H2 : (0 <= progressStep p e <= 100)%Z) by lia.
    specialize (IH _ H2). lia.
Qed.

Lemma ticks_stop (events : list ProgressEvent) (p : Z) :
  Forall (fun e => e = Tick) events ->
  (0 <= p <= 92)%Z ->
  (fold_left progressStep events p <= 92)%Z.
Proof.
  intros Hall. revert p. induction Hall as [|e es -> _ IH]; intros p Hp;
    cbn [fold_left].
  - lia.
  - apply IH. cbn [progressStep]. unfold tick.
    destruct (92 <=? p)%Z eqn:E; [lia|]. apply Z.leb_gt in E. lia.
Qed.

(** The progress a sweep shows never goes back and stays between 0 and
    100, so the bar shows it as it is; the timer alone never takes it past
    92; and it shows 100 once [runScan] has reported 100, whatever follows. *)
Theorem progress_never_regresses (before after : list ProgressEvent) :
  (0 <= progressAfter before)%Z
  /\ (progressAfter before <= progressAfter (before ++ after) <= 100)%Z
  /\ barWidth (progressAfter before) = progressAfter before
  /\ (Forall (fun e => e = Tick) before -> (progressAfter before <= 92)%Z)
  /\ (In (Update 100) before -> progressAfter before = 100%Z).
Proof.
  unfold progressAfter. rewrite fold_left_app.
  pose proof (progress_fold_bounds before 0 ltac:(lia)) as H0.
  pose proof (progress_fold_bounds after (fold_left progressStep before 0%Z)
                ltac:(lia)) as H1.
  split; [lia|]. split; [lia|]. split; [unfold barWidth; lia|]. split.
  - intros Hall. apply ticks_stop; [assumption | lia].
  - intros Hin. apply in_split in Hin as [l1 [l2 ->]].
    rewrite fold_left_app. cbn [fold_left progressStep].
    pose proof (progress_fold_bounds l1 0 ltac:(lia)) as H2.
    assert (H3 : updateProgress 100 (fold_left progressStep l1 0%Z) = 100%Z)
      by (unfold updateProgress; lia).
    rewrite H3.
    pose proof (progress_fold_bounds l2 100 ltac:(lia)). lia.
Qed.

End ProgressFacts.

(** ** Recording authorized sites *)

Section ObjectFacts.
Import JsString Server ServerAuth.
Context {A : Type}.
Implicit Types (m : list (string * A)) (k : string) (v : A).

Lemma hasOwn_ownOf m k :
  hasOwn m k = match ownOf m k with Some _ => true | None => false end.
Proof.
  induction m as [|[k' v'] m IH]; cbn; [reflexivity|].
  destruct (String.eqb k k'); [reflexivity | exact IH].
Qed.


Lemma ownOf_replace_same m k v :
  hasOwn m k = true -> ownOf (replace k v m) k = Some v.
Proof.
  induction m as [|[k' v'] m IH]; cbn; [discriminate|].
  destruct (String.eqb k k') eqn:E; cbn; rewrite E; [reflexivity|].
  exact IH.
Qed.



Lemma ownOf_place_same m n k v :
  hasOwn m k = false -> ownOf (place n k v m) k = Some v.
Proof.
  induction m as [|[k' v'] m IH]; cbn.
  - now rewrite String.eqb_refl.
  - intros H. apply orb_false_iff in H as [Hk Hm].
    destruct (arrayIndex k') as [n'|]; [destruct (n <? n')%N|]; cbn;
      rewrite ?String.eqb_refl, ?Hk; auto.
Qed.



Lemma ownOf_app m k v k0 :
  ownOf (m ++ [(k, v)])%list k0
  = match ownOf m k0 with
    | Some x => Some x
    | None => if String.eqb k0 k then Some v else None
    end.
Proof.
  induction m as [|[k' v'] m IH]; cbn; [reflexivity|].
  destruct (String.eqb k0 k'); [reflexivity | exact IH].
Qed.

Lemma ownOf_define_same m k v : ownOf (define m k v) k = Some v.
Proof.
  unfold define. destruct (hasOwn m k) eqn:E.
  - now apply ownOf_replace_same.
  - destruct (arrayIndex k); [now apply ownOf_place_same|].
    rewrite ownOf_app, String.eqb_refl.
    rewrite hasOwn_ownOf in E. now destruct (ownOf m k).
Qed.



End ObjectFacts.

Section UpsertFacts.
Import JsString Server ServerAuth.

Lemma own_ownOf (m : SiteMap) (k : string) : own m k = ownOf m k.
Proof.
  induction m as [|[k' e] m IH]; cbn; [reflexivity|]. now rewrite IH.
Qed.

Lemma get_define_same (m : SiteMap) (k : string) (e : AuthorizedSite) :
  get (define m k e) k = Own e.
Proof. unfold get. now rewrite own_ownOf, ownOf_define_same. Qed.


Lemma previous_own (m : SiteMap) (k : string) : previous m k = own m k.
Proof.
  unfold previous, get. destruct (own m k); [reflexivity|].
  now destruct (has objectPrototypeKeys k).
Qed.

Lemma withSites_ensure (s : SessionData) (m : SiteMap) :
  withSites (fst (ensureAuthorizedSites s)) m = withSites s m.
Proof.
  unfold ensureAuthorizedSites. now destruct (authorizedSites s).
Qed.

Lemma runsProtoSetter_other {A : Type} (m : list (string * A)) (k : string) :
  k <> "__proto__" -> runsProtoSetter m k = false.
Proof.
  intros Hne. unfold runsProtoSetter. apply String.eqb_neq in Hne.
  rewrite Hne. apply andb_false_r.
Qed.

(** The three ways a call can go. *)
Lemma upsert_cases (now : Z) (s : SessionData) (site : string) (patch : Patch) :
  let m := snd (ensureAuthorizedSites s) in
  let k := trim site in
  (k = "" /\ upsertAuthorizedSite now s site patch = Some s)
  \/ (k <> "" /\ runsProtoSetter m k = true
      /\ upsertAuthorizedSite now s site patch = None)
  \/ (k <> "" /\ runsProtoSetter m k = false
      /\ upsertAuthorizedSite now s site patch
         = Some (withSites s (define m k (merged now k (own m k) patch)))).
Proof.
  cbv zeta. unfold upsertAuthorizedSite.
  destruct (truthy (trim site)) eqn:Ht; cbn [negb].
  - apply truthy_true in Ht. right.
    pose proof (withSites_ensure s) as Hw.
    destruct (ensureAuthorizedSites s) as [s1 m]. cbn [fst snd] in *.
    rewrite previous_own.
    destruct (runsProtoSetter m (trim site)); [left | right];
      repeat split; try assumption. now rewrite Hw.
  - left. split; [|reflexivity].
    destruct (trim site); [reflexivity | discriminate].
Qed.

Lemma ensure_withSites (s : SessionData) (m : SiteMap) :
  ensureAuthorizedSites (withSites s m) = (withSites s m, m).
Proof. reflexivity. Qed.

(** Recording a site with a usable token: the entry is stored under the
    trimmed id, a site seen before keeps its first-seen time, the token is
    what the delete route will find for the site, and the session passes
    the gate from then on. *)
Theorem upsert_then_lookup (now : Z) (s : SessionData) (site : string)
    (patch : Patch) (t : string) :
  trim site <> "" -> trim site <> "__proto__" ->
  patch_accessToken patch = Some t -> trim t <> "" ->
  exists s' m' e,
    upsertAuthorizedSite now s site patch = Some s'
    /\ authorizedSites s' = Some m'
    /\ get m' (trim site) = Own e
    /\ siteId e = trim site /\ accessToken e = Some t
    /\ (forall m p, authorizedSites s = Some m ->
                    own m (trim site) = Some p ->
                    firstSeenAt e = firstSeenAt p)
    /\ getAccessTokenForSite s' site = (s', trim t)
    /\ hasAnyAuthorization s' = true.
Proof.
  intros Hk Hproto Htok Ht.
  destruct (upsert_cases now s site patch) as [[H _]|[[_ [H _]]|[_ [_ H]]]].
  - contradiction.
  - now rewrite runsProtoSetter_other in H.
  - set (m := snd (ensureAuthorizedSites s)) in *.
    set (e := merged now (trim site) (own m (trim site)) patch) in *.
    exists (withSites s (define m (trim site) e)),
           (define m (trim site) e), e.
    assert (He : accessToken e = Some t) by (subst e; cbn; now rewrite Htok).
    assert (Hget : get (define m (trim site) e) (trim site) = Own e)
      by apply get_define_same.
    split; [exact H|]. split; [reflexivity|]. split; [exact Hget|].
    split; [reflexivity|]. split; [exact He|]. split; [|split].
    + intros m0 p Hm Hp. subst e m. unfold ensureAuthorizedSites.
      rewrite Hm. cbn [snd]. now rewrite Hp.
    + unfold getAccessTokenForSite. rewrite ensure_withSites, Hget, He.
      cbn [orElse session_accessToken].
      assert (Htr : truthy t = true).
      { apply truthy_true. intros ->. now apply Ht. }
      now rewrite Htr.
    + apply hasAnyAuthorization_spec.
      exists (define m (trim site) e), (trim site), e, t.
      repeat split; try assumption.
      now rewrite own_ownOf, ownOf_define_same.
Qed.



End UpsertFacts.

(** ** The OAuth callback *)

Section CallbackFacts.
Import JsString Server ServerAuth.









Lemma nameStep_unnamed (m : NameMap) (sj : SiteJson) :
  named sj = false -> nameStep m sj = m.
Proof.
  unfold named, nameStep. intros H.
  destruct (truthy (trim (stringOr (json_id sj)))); cbn in *;
    [now rewrite H | reflexivity].
Qed.

Lemma siteNames_unnamed (listed : list SiteJson) :
  Forall (fun sj => named sj = false) listed -> siteNames listed = [].
Proof.
  unfold siteNames. generalize (@nil (string * string)).
  induction 1 as [|sj rest Hsj _ IH]; cbn; [reflexivity|].
  now rewrite nameStep_unnamed.
Qed.

Variable up : Upstreams.
Variable clock : nat -> Z.
Variable now : Z.
Variable saved : bool.

Abbreviation afterSave :=
  (if saved then None
   else Some {| status := 500; body := Message "Server error" |}).

Abbreviation namesFor token :=
  (match listSites up token with
   | Some l => siteNames l
   | None => []
   end).


(** A granted callback that resolves no site stores the token and still
    leaves the session where it was at the gate: with introspection
    yielding no id, a site list helps only through sites that have both an
    id and a name. *)
Theorem callback_without_sites (s : SessionData) (code error : option string)
    (token scope : option string) :
  orElse error None = None ->
  stringOr code <> "" ->
  exchange up (stringOr code) = Granted token scope ->
  (introspect up token = None \/ introspect up token = Some []) ->
  (forall l, listSites up token = Some l ->
             Forall (fun sj => named sj = false) l) ->
  exists s',
    callbackHandler up clock now saved s code error = Some (s', afterSave)
    /\ session_accessToken s' = token
    /\ authorizedSites s' = authorizedSites s
    /\ authenticatedFlag (snd (authStatusHandler s'))
       = Some (hasAnyAuthorization s).
Proof.
  intros Herr Hcode Hex Hint Hlist.
  unfold callbackHandler. rewrite Herr.
  apply truthy_true in Hcode. rewrite Hcode, Hex. cbn [negb].
  assert (Hnames : namesFor token = []).
  { destruct (listSites up token) as [l|]; [|reflexivity].
    now apply siteNames_unnamed, Hlist. }
  rewrite Hnames.
  assert (Hids : resolvedSiteIds (introspect up token) [] = [])
    by (destruct Hint as [-> | ->]; reflexivity).
  rewrite Hids. cbn [upsertEach]. eexists. split; [reflexivity|].
  split; [reflexivity|]. split; [reflexivity|].
  unfold authStatusHandler, ensureAuthorizedSites, hasAnyAuthorization.
  cbn [authorizedSites]. now destruct (authorizedSites s).
Qed.


End CallbackFacts.

Section AuthExamples.
Import JsString Server ServerAuth Scenario AuthScenario.

Lemma upsert_then_lookup_witness :
  exists s',
    upsertAuthorizedSite 5 freshSession " site9 " (tokenPatch "tok9") = Some s'
    /\ getAccessTokenForSite s' " site9 " = (s', "tok9")
    /\ hasAnyAuthorization s' = true.
Proof.
  destruct (upsert_then_lookup 5 freshSession " site9 " (tokenPatch "tok9")
              "tok9" ltac:(vm_compute; discriminate)
              ltac:(vm_compute; discriminate) eq_refl
              ltac:(vm_compute; discriminate))
    as [s' [m' [e [H1 [_ [_ [_ [_ [_ [H2 H3]]]]]]]]]].
  exists s'. split; [exact H1 | split; [exact H2 | exact H3]].
Defined.




Lemma callback_without_sites_witness :
  exists s',
    callbackHandler (grantWithoutSites "tok") wallClock 7 true freshSession
                    (Some "abc") None = Some (s', None)
    /\ session_accessToken s' = Some "tok"
    /\ authenticatedFlag (snd (authStatusHandler s')) = Some false.
Proof.
  destruct (callback_without_sites (grantWithoutSites "tok") wallClock 7 true
              freshSession (Some "abc") None (Some "tok") None
              eq_refl ltac:(discriminate) eq_refl ltac:(now left)
              ltac:(intros l [= <-]; repeat constructor))
    as [s' [H1 [H2 [_ H3]]]].
  exists s'. split; [exact H1 | split; [exact H2 | exact H3]].
Defined.


End AuthExamples.

(** ** The extension's gate against the backend *)

Section ExtensionGateFacts.
Import JsString Server AppGate.

Variable base : string.
Variable reason : Z -> string.
Variable stringify : Body -> string.
Variable localeCompare : string -> string -> Z.
Variable getSiteInfo : option (App.Outcome (option DesignerSiteInfo)).
Variable s : SessionData.

Abbreviation gate :=
  (refreshAuthAgainst base reason stringify localeCompare getSiteInfo s).
Abbreviation designerSite :=
  (trim (stringOr (member (siteInfo getSiteInfo) info_siteId))).

Abbreviation listed :=
  (designerSite <> ""
   /\ exists m, authorizedSites s = Some m /\ In designerSite (keys m)).

Lemma request_json (b : Body) :
  truthy base = true ->
  Api.request base reason stringify (json b) = Api.Json b.
Proof. intros Hb. unfold Api.request. now rewrite Hb. Qed.

Lemma authStatus_answer :
  truthy base = true ->
  exists n ids,
    Api.authStatus base reason stringify s
    = Some (AuthStatus (hasAnyAuthorization s) n ids).
Proof.
  intros Hb. unfold Api.authStatus, authStatusHandler.
  pose proof (ensure_keeps_gate s) as Hg.
  destruct (ensureAuthorizedSites s) as [s1 m]. cbn [fst snd] in *.
  rewrite (request_json _ Hb), Hg. eauto.
Qed.

Lemma listed_sorted (m : SiteMap) (k : string) :
  existsb (fun x => String.eqb (id x) k)
          (sort localeCompare (map (summary m) (keys m))) = true
  <-> In k (keys m).
Proof.
  rewrite existsb_exists. split.
  - intros [x [Hx E]]. apply String.eqb_eq in E. subst k.
    apply (Permutation_in _ (sort_perm localeCompare _)) in Hx.
    apply in_map_iff in Hx as [k [<- Hk]]. exact Hk.
  - intros Hk. exists (summary m k). split; [|apply String.eqb_refl].
    apply (Permutation_in _ (Permutation_sym (sort_perm localeCompare _))).
    now apply in_map.
Qed.

Lemma sites_answer (m : SiteMap) :
  truthy base = true ->
  authorizedSites s = Some m ->
  hasAnyAuthorization s = true ->
  Api.sites base reason stringify localeCompare (fst (authStatusHandler s))
  = Api.Json (Sites (sort localeCompare (map (summary m) (keys m)))).
Proof.
  intros Hb Hm Hg. unfold Api.sites, authStatusHandler.
  rewrite (ensure_with_map _ _ Hm). cbn [fst].
  unfold sitesHandler. rewrite (requireAuth_next _ Hg).
  rewrite (ensure_with_map _ _ Hm). cbn [snd]. now apply request_json.
Qed.

Lemma gate_status_eq :
  gate_status gate
  = if negb (truthy base) then api_missing
    else if negb (hasAnyAuthorization s) then needs_auth
         else if truthy designerSite
                 && has (keys (snd (ensureAuthorizedSites s))) designerSite
              then ok else needs_site.
Proof.
  unfold refreshAuthAgainst, refreshAuth.
  destruct (truthy base) eqn:Hb; cbn [negb]; [|reflexivity].
  destruct (authStatus_answer Hb) as [n [ids ->]]. cbn [authenticated].
  destruct (hasAnyAuthorization s) eqn:Hg; cbn [negb]; [|reflexivity].
  assert (Hm : exists m, authorizedSites s = Some m).
  { unfold hasAnyAuthorization in Hg.
    destruct (authorizedSites s); [eauto | discriminate]. }
  destruct Hm as [m Hm]. rewrite (sites_answer m Hb Hm Hg).
  rewrite (ensure_with_map _ _ Hm). cbn [snd sitesOf].
  assert (E : existsb (fun x => String.eqb (id x) designerSite)
                      (sort localeCompare (map (summary m) (keys m)))
              = has (keys m) designerSite).
  { apply eq_true_iff_eq. rewrite listed_sorted. symmetry. apply has_In. }
  rewrite E.
  now destruct (truthy designerSite && has (keys m) designerSite).
Qed.

(** What the extension's gate shows against the backend: the missing-API
    state exactly when no API base is configured; otherwise the
    authorize prompt exactly when the session fails the backend's gate;
    otherwise open exactly when the site the Designer reports is a key of
    the session's site map, and the authorize-this-site prompt when it is
    not.  The gate always shows the Designer's site id, trimmed. *)
Theorem refreshAuth_against_backend :
  (gate_status gate = api_missing <-> base = "")
  /\ (gate_status gate = needs_auth <->
      base <> "" /\ hasAnyAuthorization s = false)
  /\ (gate_status gate = needs_site <->
      base <> "" /\ hasAnyAuthorization s = true /\ ~ listed)
  /\ (gate_status gate = ok <->
      base <> "" /\ hasAnyAuthorization s = true /\ listed)
  /\ gate_siteId gate = designerSite.
Proof.
  assert (Hl : truthy designerSite
               && has (keys (snd (ensureAuthorizedSites s))) designerSite
               = true
               <-> designerSite <> ""
                   /\ exists m, authorizedSites s = Some m
                                /\ In designerSite (keys m)).
  { rewrite andb_true_iff, truthy_true, has_In.
    unfold ensureAuthorizedSites. destruct (authorizedSites s) as [m|]; cbn.
    - split.
      + intros [H1 H2]. split; [assumption | now exists m].
      + intros [H1 [m' [[= <-] H2]]]. now split.
    - split; [now intros [_ []] | now intros [_ [m [? _]]]]. }
  rewrite gate_status_eq.
  assert (Hb : truthy base = true <-> base <> "") by apply truthy_true.
  split; [|split; [|split; [|split]]].
  - destruct (truthy base) eqn:E; cbn [negb].
    + split.
      * destruct (hasAnyAuthorization s); cbn [negb]; [|discriminate].
        now destruct (truthy designerSite && _).
      * intros ->. discriminate.
    + split; [|reflexivity]. intros _.
      destruct base; [reflexivity | discriminate].
  - destruct (truthy base) eqn:E; cbn [negb].
    + destruct (hasAnyAuthorization s); cbn [negb].
      * split; [|now intros [_ ?]].
        now destruct (truthy designerSite && _).
      * split; [|reflexivity]. intros _. split; [now apply Hb | reflexivity].
    + split; [discriminate|]. intros [H _]. apply Hb in H. discriminate.
  - destruct (truthy base) eqn:E; cbn [negb].
    + destruct (hasAnyAuthorization s); cbn [negb].
      * destruct (truthy designerSite && _) eqn:El.
        -- split; [discriminate|]. intros [_ [_ H]]. destruct H.
           now apply Hl.
        -- split; [|reflexivity]. intros _.
           split; [now apply Hb|]. split; [reflexivity|].
           intros H. apply Hl in H. discriminate.
      * split; [discriminate | now intros [_ [? _]]].
    + split; [discriminate|]. intros [H _]. apply Hb in H. discriminate.
  - destruct (truthy base) eqn:E; cbn [negb].
    + destruct (hasAnyAuthorization s); cbn [negb].
      * destruct (truthy designerSite && _) eqn:El.
        -- split; [|reflexivity]. intros _.
           split; [now apply Hb|]. split; [reflexivity | now apply Hl].
        -- split; [discriminate|]. intros [_ [_ H]].
           apply Hl in H. discriminate.
      * split; [discriminate | now intros [_ [? _]]].
    + split; [discriminate|]. intros [H _]. apply Hb in H. discriminate.
  - unfold refreshAuthAgainst, refreshAuth.
    destruct (negb (truthy base)); [reflexivity|].
    destruct (negb _); [reflexivity|].
    destruct (Api.sites _ _ _ _ _); [|reflexivity].
    now destruct (negb _).
Qed.



End ExtensionGateFacts.

Section ExtensionGateExamples.
Import JsString Server AppGate Scenario.


End ExtensionGateExamples.

(** ** Allowed origins *)

Section CorsFacts.
Import JsString Cors.

Lemma lower_sep (c : ascii) : is_sep (lower c) = is_sep c.
Proof. destruct c as [[] [] [] [] [] [] [] []]; reflexivity. Qed.

Lemma lower_slash (c : ascii) : Ascii.eqb (lower c) "/" = Ascii.eqb c "/".
Proof. destruct c as [[] [] [] [] [] [] [] []]; reflexivity. Qed.

Lemma toLowerCase_sep_free (s : string) :
  sep_free (toLowerCase s) = sep_free s.
Proof.
  induction s as [|c s IH]; cbn; [reflexivity|]. now rewrite lower_sep, IH.
Qed.

Lemma stripSlashes_lower (s : string) :
  stripSlashes (toLowerCase s) = toLowerCase (stripSlashes s).
Proof.
  induction s as [|c s IH]; cbn; [reflexivity|].
  rewrite IH, lower_slash.
  destruct (stripSlashes s); cbn; [now destruct (Ascii.eqb c "/") | reflexivity].
Qed.

Lemma stripSlashes_idempotent (s : string) :
  stripSlashes (stripSlashes s) = stripSlashes s.
Proof.
  induction s as [|c s IH]; cbn; [reflexivity|].
  destruct (stripSlashes s) as [|c' r] eqn:E.
  - destruct (Ascii.eqb c "/") eqn:Ec; cbn; [reflexivity | now rewrite Ec].
  - change (stripSlashes (String c (String c' r)))
      with (match stripSlashes (String c' r) with
            | EmptyString => if Ascii.eqb c "/" then EmptyString
                             else String c EmptyString
            | x => String c x
            end).
    now rewrite IH.
Qed.

Lemma stripSlashes_sep_free (s : string) :
  sep_free s = true -> sep_free (stripSlashes s) = true.
Proof.
  induction s as [|c s IH]; cbn; [reflexivity|].
  intros [Hc Hs]%andb_true_iff. specialize (IH Hs).
  destruct (stripSlashes s).
  - destruct (Ascii.eqb c "/"); cbn; [reflexivity | now rewrite Hc].
  - cbn in *. now rewrite Hc, IH.
Qed.

(** Normalising twice changes nothing for an entry of the origin list. *)
Lemma normalizeOrigin_word (w : string) :
  sep_free w = true -> normalizeOrigin (normalizeOrigin w) = normalizeOrigin w.
Proof.
  intros Hw. unfold normalizeOrigin. rewrite (trim_sep_free _ Hw).
  rewrite trim_sep_free.
  - now rewrite !stripSlashes_lower, toLowerCase_idempotent,
      stripSlashes_idempotent.
  - apply stripSlashes_sep_free. now rewrite toLowerCase_sep_free.
Qed.

Lemma unique_fold (xs acc : list string) (x : string) :
  In x (fold_left (fun acc x => if has acc x then acc else (acc ++ [x])%list)
                  xs acc)
  <-> In x acc \/ In x xs.
Proof.
  revert acc. induction xs as [|y xs IH]; intros acc; cbn [fold_left].
  - cbn. tauto.
  - rewrite IH. destruct (has acc y) eqn:E.
    + apply has_In in E. cbn. split; [tauto|].
      intros [H|[<-|H]]; auto.
    + rewrite in_app_iff. cbn. tauto.
Qed.

Lemma unique_In (xs : list string) (x : string) : In x (unique xs) <-> In x xs.
Proof. unfold unique. rewrite unique_fold. cbn. tauto. Qed.

Lemma normalizeOrigin_empty : normalizeOrigin "" = "".
Proof. reflexivity. Qed.

(** Every entry of the configured origin list is allowed, in whatever
    letter case, with or without trailing slashes or surrounding white
    space the request names it; its preflight is answered 204 with the
    CORS headers set. *)
Theorem configured_origin_allowed (env : Env) (v origin : string) :
  In v (split_sep (originListStr env)) ->
  normalizeOrigin v <> "" ->
  normalizeOrigin origin = normalizeOrigin v ->
  isAllowedOrigin env origin = true
  /\ preflight env "OPTIONS" (Some origin) = (Some 204%Z, true).
Proof.
  intros Hv Hne Heq.
  assert (Hallowed : isAllowedOrigin env origin = true).
  { unfold isAllowedOrigin. rewrite Heq.
    apply truthy_true in Hne. rewrite Hne. cbn [negb].
    destruct (isLocalOrigin (normalizeOrigin v)); [reflexivity|].
    apply has_In. unfold allowedOriginSet. apply unique_In.
    assert (Hw : sep_free v = true).
    { pose proof (split_go_sep_free (originListStr env) false "" eq_refl) as H.
      rewrite Forall_forall in H. now apply H. }
    rewrite <- (normalizeOrigin_word _ Hw). apply in_map.
    unfold allowedOrigins. apply unique_In, filter_In. split; [|exact Hne].
    right. now apply in_map. }
  split; [exact Hallowed|].
  unfold preflight. rewrite Hallowed. cbn [String.eqb].
  assert (Ho : truthy origin = true).
  { apply truthy_true. intros ->. rewrite normalizeOrigin_empty in Heq.
    now apply Hne. }
  now rewrite Ho.
Qed.

Lemma portSuffix_digits (digits : string) :
  digits <> "" ->
  Forall (fun c => is_digit c = true) (list_ascii_of_string digits) ->
  portSuffix (":" ++ digits) = true.
Proof.
  intros Hne Hall. cbn. apply truthy_true in Hne. rewrite Hne. cbn.
  now apply forallb_forall, Forall_forall.
Qed.

(** A page served from the local machine is always allowed, whatever the
    configuration lists: http or https, [localhost] or [127.0.0.1], with
    or without a port, in any letter case and with trailing slashes. *)
Theorem localhost_always_allowed (env : Env)
    (scheme host port origin : string) :
  In scheme ["http://"; "https://"] ->
  In host ["localhost"; "127.0.0.1"] ->
  (port = ""
   \/ exists digits,
        port = ":" ++ digits /\ digits <> ""
        /\ Forall (fun c => is_digit c = true) (list_ascii_of_string digits)) ->
  normalizeOrigin origin = scheme ++ host ++ port ->
  isAllowedOrigin env origin = true.
Proof.
  intros Hs Hh Hp Ho. unfold isAllowedOrigin. rewrite Ho.
  assert (Hport : portSuffix port = true).
  { destruct Hp as [->|[digits [-> [Hne Hall]]]]; [reflexivity|].
    now apply portSuffix_digits. }
  assert (Hlocal : isLocalOrigin (scheme ++ host ++ port) = true).
  { unfold isLocalOrigin, afterEither.
    destruct Hs as [<-|[<-|[]]]; destruct Hh as [<-|[<-|[]]];
      cbn; exact Hport. }
  rewrite Hlocal.
  destruct Hs as [<-|[<-|[]]]; reflexivity.
Qed.

End CorsFacts.

Section CorsExamples.
Import JsString Cors.

Lemma configured_origin_allowed_witness :
  isAllowedOrigin (mkEnv (Some "https://a.example, https://b.example/")
                         "https://app.example")
                  " HTTPS://B.Example// " = true
  /\ preflight (mkEnv (Some "https://a.example, https://b.example/")
                      "https://app.example")
               "OPTIONS" (Some " HTTPS://B.Example// ") = (Some 204%Z, true).
Proof.
  apply (configured_origin_allowed
           (mkEnv (Some "https://a.example, https://b.example/")
                  "https://app.example")
           "https://b.example/" " HTTPS://B.Example// ");
    [vm_compute; tauto | vm_compute; discriminate | reflexivity].
Defined.

Lemma localhost_always_allowed_witness :
  isAllowedOrigin (mkEnv None "https://app.example")
                  "HTTP://LocalHost:3000/" = true.
Proof.
  apply (localhost_always_allowed (mkEnv None "https://app.example")
           "http://" "localhost" ":3000" "HTTP://LocalHost:3000/");
    [now left | now left | | reflexivity].
  right. exists "3000". split; [reflexivity|].
  split; [discriminate | repeat constructor].
Defined.

End CorsExamples.

(** ** When a sweep completes, and what it counts *)

Section SweepOutcome.
Import JsString App.

Lemma scanPage_elements (st st' : ScanState) (page : PageObj) :
  scanPage st page = Some st' ->
  st_scannedElements st'
  = st_scannedElements st
    + (if opens page then List.length (elementsOf page) else 0).
Proof.
  unfold scanPage, opens, elementsOf.
  destruct (switchPage page) as [[]|]; [|intros [= <-]; lia].
  destruct (getAllElements page) as [[els|]|]; [|discriminate|];
    intros [= <-]; rewrite !scanPageImage_marks;
    try rewrite (fold_marks elementRefs scanElement elementRefs_steady
                            scanElement_marks);
    repeat match goal with
           | |- context [st_scannedElements (markAll ?r ?x)] =>
               rewrite (proj2 (proj2 (markAll_frame r x)))
           end; reflexivity.
Qed.

Lemma scanPages_elements (pages : list PageObj) :
  forall st st',
    scanPages st pages = Some st' ->
    st_scannedElements st'
    = st_scannedElements st
      + list_sum (map (fun p => List.length (elementsOf p))
                      (filter opens pages)).
Proof.
  induction pages as [|pg pages IH]; intros st st'; cbn [scanPages].
  - intros [= <-]. cbn. lia.
  - destruct (scanPage st pg) as [st1|] eqn:E; [|discriminate].
    intros H. apply IH in H. apply scanPage_elements in E.
    rewrite H, E. cbn [filter]. destruct (opens pg); cbn [map];
      unfold list_sum; cbn [fold_right]; lia.
Qed.

Lemma scanPages_stops (pages : list PageObj) :
  forall st,
    scanPages st pages = None ->
    exists pg, In pg pages /\ opens pg = true
               /\ getAllElements pg = Some Rejects.
Proof.
  induction pages as [|pg pages IH]; intros st; cbn [scanPages];
    [discriminate|].
  destruct (scanPage st pg) as [st1|] eqn:E.
  - intros H. apply IH in H as [p [Hp H]]. exists p. split; [now right | exact H].
  - intros _. exists pg. split; [now left|].
    unfold scanPage, opens in *. destruct (switchPage pg) as [[]|];
      [|discriminate].
    destruct (getAllElements pg) as [[els|]|]; try discriminate. now split.
Qed.

Lemma unusedCount_zero (rows : list ImageRow) :
  unusedCount rows = 0 <-> forall row, In row rows -> isUnused row = false.
Proof.
  unfold unusedCount. induction rows as [|r rows IH]; cbn.
  - split; [now intros _ row [] | reflexivity].
  - destruct (isUnused r) eqn:E; cbn.
    + split; [discriminate|]. intros H.
      specialize (H r (or_introl eq_refl)). congruence.
    + rewrite IH. split.
      * intros H row [<-|Hr]; auto.
      * intros H row Hr. apply H. now right.
Qed.

(** A sweep ends with an error message exactly when the host has no asset
    enumeration, or the enumeration of assets, pages or global styles
    rejects, or a page it switched to rejects the enumeration of its
    elements; everything else the host refuses is skipped.  A sweep that
    completes shows the success screen exactly when no row is unused, and
    reports as scanned all assets (images or not), all global styles, and
    the elements of the pages it switched to. *)
Theorem runScan_outcome (webflow : Host) (elapsed : nat) :
  ((exists message, runScan webflow elapsed = inl message)
   <-> (getAllAssets webflow = None
        \/ getAllAssets webflow = Some Rejects
        \/ getAllPagesAndFolders webflow = Some Rejects
        \/ getAllStyles webflow = Some Rejects
        \/ exists pg, In pg (pagesListed webflow) /\ opens pg = true
                      /\ getAllElements pg = Some Rejects))
  /\ (forall result screen,
        runScan webflow elapsed = inr (result, screen) ->
        (screen = success <->
         forall row, In row (images result) -> isUnused row = false)
        /\ (exists allAssets,
              getAllAssets webflow = Some (Resolves allAssets)
              /\ scannedAssets (meta result) = List.length allAssets)
        /\ scannedStyles (meta result) = List.length (stylesListed webflow)
        /\ scannedElements (meta result)
           = list_sum (map (fun p => List.length (elementsOf p))
                           (filter opens (pagesListed webflow)))
        /\ durationMs (meta result) = elapsed).
Proof.
  unfold runScan, pagesListed, stylesListed.
  destruct (getAllAssets webflow) as [[allAssets|]|].
  2:{ split; [split; eauto | discriminate]. }
  2:{ split; [split; eauto | discriminate]. }
  set (st0 := {| imgs := collectImages allAssets; st_detectedReferences := 0;
                 st_scannedPages := 0; st_scannedElements := 0 |}).
  assert (Hcases :
    forall (pages : list PageObj) (stylesCall : option (Outcome (list StyleObj))),
      let outcome :=
        match scanPages st0 pages with
        | None => inl "Scan failed"
        | Some st1 =>
            match stylesCall with
            | Some Rejects => inl "Scan failed"
            | _ =>
                let styles := match stylesCall with
                              | Some (Resolves l) => l
                              | _ => []
                              end in
                let st2 := scanBatches (List.length styles) st1 styles in
                let rows := map toRow (imgs st2) in
                inr ({| images := rows;
                        meta := {| scannedPages := st_scannedPages st2;
                                   scannedElements := st_scannedElements st2;
                                   scannedStyles := List.length styles;
                                   detectedReferences :=
                                     st_detectedReferences st2;
                                   durationMs := elapsed;
                                   scannedAssets := List.length allAssets |} |},
                     if (unusedCount rows =? 0)%nat then success else results)
            end
        end in
      ((exists message, outcome = inl message)
       <-> (stylesCall = Some Rejects
            \/ exists pg, In pg pages /\ opens pg = true
                          /\ getAllElements pg = Some Rejects))
      /\ (forall result screen,
            outcome = inr (result, screen) ->
            (screen = success <->
             forall row, In row (images result) -> isUnused row = false)
            /\ scannedAssets (meta result) = List.length allAssets
            /\ scannedStyles (meta result)
               = List.length (match stylesCall with
                              | Some (Resolves l) => l
                              | _ => []
                              end)
            /\ scannedElements (meta result)
               = list_sum (map (fun p => List.length (elementsOf p))
                               (filter opens pages))
            /\ durationMs (meta result) = elapsed)).
  { intros pages stylesCall. cbv zeta.
    destruct (scanPages st0 pages) as [st1|] eqn:Hpages.
    - assert (Hnone : ~ exists pg, In pg pages /\ opens pg = true
                                   /\ getAllElements pg = Some Rejects).
      { intros H. apply (scanPages_elements_reject pages st0) in H.
        congruence. }
      apply scanPages_elements in Hpages. cbn in Hpages.
      assert (Hdone : forall styles,
        (unusedCount (map toRow (imgs (scanBatches (List.length styles) st1
                                                   styles))) =? 0)%nat = true
        <-> forall row,
              In row (map toRow (imgs (scanBatches (List.length styles) st1
                                                   styles))) ->
              isUnused row = false).
      { intros styles. rewrite Nat.eqb_eq. apply unusedCount_zero. }
      assert (Hel : forall styles,
        st_scannedElements (scanBatches (List.length styles) st1 styles)
        = list_sum (map (fun p => List.length (elementsOf p))
                        (filter opens pages))).
      { intros styles. rewrite (scanBatches_marks _ st1 _ (le_n _)).
        rewrite (proj2 (proj2 (markAll_frame _ st1))). exact Hpages. }
      destruct stylesCall as [[styles|]|].
      + split.
        * split; [intros [msg H]; discriminate|].
          intros [H|H]; [discriminate | contradiction].
        * intros result screen [= <- <-]. cbn [images meta scannedAssets
            scannedStyles scannedElements durationMs].
          split; [|repeat split; apply Hel].
          rewrite <- Hdone.
          destruct (unusedCount _ =? 0)%nat; split; congruence.
      + split; [split; eauto | discriminate].
      + split.
        * split; [intros [msg H]; discriminate|].
          intros [H|H]; [discriminate | contradiction].
        * intros result screen [= <- <-]. cbn [images meta scannedAssets
            scannedStyles scannedElements durationMs].
          split; [|repeat split; apply (Hel [])].
          rewrite <- (Hdone []).
          destruct (unusedCount _ =? 0)%nat; split; congruence.
    - apply scanPages_stops in Hpages.
      split; [split; eauto | discriminate]. }
  destruct (getAllStyles webflow) as [[styles|]|];
    destruct (getAllPagesAndFolders webflow) as [[items|]|];
    try solve [split; [split; eauto 6 | discriminate]];
    match goal with
    | |- context [scanPages st0 (pagesOf ?l)] =>
        match goal with
        | |- context [scanBatches _ _ ?ss] =>
            destruct (Hcases (pagesOf l) (Some (Resolves ss))) as [H1 H2]
        | |- context [@Some (Outcome (list StyleObj)) Rejects] =>
            destruct (Hcases (pagesOf l) (Some Rejects)) as [H1 H2]
        end
    end;
    (split;
     [ split;
       [ intros Hm; apply (proj1 H1) in Hm; destruct Hm as [H|H];
         try discriminate; auto 6
       | intros [H|[H|[H|[H|H]]]]; try discriminate; apply (proj2 H1); auto ]
     | intros result screen H; apply H2 in H as [G1 [G2 [G3 [G4 G5]]]];
       split; [exact G1|]; split; [now exists allAssets|]; auto ]).
Qed.

End SweepOutcome.

(** ** From authorizing to an open gate *)

Section FlowFacts.
Import JsString Server ServerAuth AppGate.

Variable up : Upstreams.
Variable clock : nat -> Z.
Variable now : Z.
Variable saved : bool.
Variable base : string.
Variable reason : Z -> string.
Variable stringify : Body -> string.
Variable localeCompare : string -> string -> Z.
Variable getSiteInfo : option (App.Outcome (option DesignerSiteInfo)).


End FlowFacts.

Section FlowExamples.
Import JsString Server ServerAuth AppGate Scenario AuthScenario.


End FlowExamples.
